(** * ts-runner: a terminal file browser and script launcher

    Shallow embedding of [src/ts-runner.ts] and the properties of its
    directory lister, navigation state machine and process launcher.

    The program is a single Node.js script.  Its own functions
    ([getEntries], [render], [runFile], [main] and the keypress handler
    registered by [main]) are translated one by one.  What the script takes
    from the platform is handled as follows:

    - [path.extname] is ported from Node's [lib/path.js], because two of the
      properties depend on its behaviour on names that begin with a dot;
    - [path.resolve], [path.join], [path.dirname] and
      [String.prototype.localeCompare] are parameters of the development,
      under the laws the proofs need;
    - the file system and the child processes are a [World] value handed to
      every step: the directory contents may change between two key presses;
    - [Array.prototype.sort] is a stable insertion sort, which is what the
      language standard prescribes for a consistent comparator. *)

From Stdlib Require Import ZArith List String Ascii Bool Lia.
From Stdlib Require Import Permutation Sorted OrderedTypeEx.
Import ListNotations.

Local Open Scope string_scope.
Local Open Scope list_scope.
Local Open Scope Z_scope.

(** ** JavaScript values used by the script *)

Module JS.

(** The numbers the script stores in [selected]: integers and [NaN]
    (a remainder by zero).  Negative zero, which [%] yields for a negative
    dividend that is a multiple of the divisor, is identified with [Int 0]:
    the script only indexes and compares with it, and both treat the two
    zeros alike. *)
Inductive num : Type :=
| Int (z : Z)
| NaN.

Definition add (a b : num) : num :=
  match a, b with
  | Int x, Int y => Int (x + y)
  | _, _ => NaN
  end.

Definition sub (a b : num) : num :=
  match a, b with
  | Int x, Int y => Int (x - y)
  | _, _ => NaN
  end.

(** [a % b]: the remainder takes the sign of the dividend; it is [NaN] when
    the divisor is zero. *)
Definition rem (a b : num) : num :=
  match a, b with
  | Int x, Int y => if y =? 0 then NaN else Int (Z.rem x y)
  | _, _ => NaN
  end.

(** [a >= b]: false as soon as one side is [NaN]. *)
Definition ge (a b : num) : bool :=
  match a, b with
  | Int x, Int y => y <=? x
  | _, _ => false
  end.

(** [arr.length] *)
Definition length {A : Type} (l : list A) : num := Int (Z.of_nat (List.length l)).

(** [arr[i]]: [undefined] (here [None]) unless [i] is an index of [arr]. *)
Definition index {A : Type} (l : list A) (i : num) : option A :=
  match i with
  | Int z => if z <? 0 then None else nth_error l (Z.to_nat z)
  | NaN => None
  end.

(** [s.startsWith(p)] *)
Definition startsWith (s p : string) : bool := String.prefix p s.

(** [arr.includes(s)] on an array of strings. *)
Definition includes (l : list string) (s : string) : bool :=
  existsb (String.eqb s) l.

(** [arr.sort(cmp)]: stable; [x] goes before the first element it does not
    compare greater than. *)
Fixpoint insert {A : Type} (cmp : A -> A -> Z) (x : A) (l : list A) : list A :=
  match l with
  | [] => [x]
  | y :: l' => if cmp x y <=? 0 then x :: y :: l' else y :: insert cmp x l'
  end.

Definition sort {A : Type} (cmp : A -> A -> Z) (l : list A) : list A :=
  fold_right (insert cmp) [] l.

(** What a call can do besides returning: throw. *)
Inductive result (E A : Type) : Type :=
| Ok (a : A)
| Throw (e : E).

Arguments Ok {E A} a.
Arguments Throw {E A} e.

End JS.

(** ** [path.extname], after Node's [lib/path.js]

    The function scans the path from its last character towards its first
    one.  [startDot] is the position of the last dot of the last path
    component, [endp] the position after the last character of that
    component, [startPart] where the component begins, and [preDotState]
    records what was seen to the left of that dot: [0] nothing yet, [-1] a
    character that is not a dot, [1] only dots. *)

Module Path.

Definition CHAR_DOT : ascii := "."%char.
Definition CHAR_FORWARD_SLASH : ascii := "/"%char.
Definition CHAR_BACKWARD_SLASH : ascii := "\"%char.
Definition CHAR_COLON : ascii := ":"%char.

(** [win] selects [path.win32], where the backslash separates too. *)
Definition isPathSeparator (win : bool) (code : ascii) : bool :=
  Ascii.eqb code CHAR_FORWARD_SLASH || (win && Ascii.eqb code CHAR_BACKWARD_SLASH).

Definition isWindowsDeviceRoot (code : ascii) : bool :=
  let n := nat_of_ascii code in
  ((65 <=? n) && (n <=? 90) || (97 <=? n) && (n <=? 122))%nat.

Record Scan : Type := mkScan {
  startDot : Z;
  startPart : Z;
  endp : Z;
  matchedSlash : bool;
  preDotState : Z
}.

(** One round of the loop body at position [i]; [inl] is [break]. *)
Definition extnameStep (win : bool) (i : Z) (code : ascii) (s : Scan) : Scan + Scan :=
  if isPathSeparator win code then
    if negb (matchedSlash s)
    then inl (mkScan (startDot s) (i + 1) (endp s) (matchedSlash s) (preDotState s))
    else inr s
  else
    let s1 :=
      if endp s =? -1
      then mkScan (startDot s) (startPart s) (i + 1) false (preDotState s)
      else s in
    if Ascii.eqb code CHAR_DOT then
      if startDot s1 =? -1
      then inr (mkScan i (startPart s1) (endp s1) (matchedSlash s1) (preDotState s1))
      else if negb (preDotState s1 =? 1)
      then inr (mkScan (startDot s1) (startPart s1) (endp s1) (matchedSlash s1) 1)
      else inr s1
    else if negb (startDot s1 =? -1)
    then inr (mkScan (startDot s1) (startPart s1) (endp s1) (matchedSlash s1) (-1))
    else inr s1.

(** The loop [for (i = path.length - 1; i >= start; --i)], over the
    characters paired with their positions, last one first. *)
Fixpoint extnameLoop (win : bool) (cs : list (Z * ascii)) (s : Scan) : Scan :=
  match cs with
  | [] => s
  | (i, code) :: rest =>
    match extnameStep win i code s with
    | inl s' => s'
    | inr s' => extnameLoop win rest s'
    end
  end.

Fixpoint indexed (i : Z) (cs : list ascii) : list (Z * ascii) :=
  match cs with
  | [] => []
  | c :: rest => (i, c) :: indexed (i + 1) rest
  end.

(** [path.win32.extname] skips a drive letter prefix. *)
Definition extnameStart (win : bool) (cs : list ascii) : Z :=
  match cs with
  | c0 :: c1 :: _ =>
    if win && Ascii.eqb c1 CHAR_COLON && isWindowsDeviceRoot c0 then 2 else 0
  | _ => 0
  end.

Definition extname (win : bool) (path : string) : string :=
  let cs := list_ascii_of_string path in
  let start := extnameStart win cs in
  let s := extnameLoop win
             (rev (skipn (Z.to_nat start) (indexed 0 cs)))
             (mkScan (-1) start (-1) true 0) in
  if (startDot s =? -1) || (endp s =? -1) || (preDotState s =? 0)
     || ((preDotState s =? 1) && (startDot s =? endp s - 1)
         && (startDot s =? startPart s + 1))
  then ""
  else substring (Z.to_nat (startDot s)) (Z.to_nat (endp s - startDot s)) path.

End Path.

(** *** Reading the scan of [extname] off a name

    What follows is used in proofs only: the scan restated for a run of
    characters without separator, where the loop never leaves early. *)

Definition isDot (c : ascii) : bool := Ascii.eqb c Path.CHAR_DOT.

(** The loop body of [extname] on a character that is no separator. *)
Definition scanChar (i : Z) (c : ascii) (s : Path.Scan) : Path.Scan :=
  let s1 :=
    if Path.endp s =? -1
    then Path.mkScan (Path.startDot s) (Path.startPart s) (i + 1) false
                     (Path.preDotState s)
    else s in
  if isDot c then
    if Path.startDot s1 =? -1
    then Path.mkScan i (Path.startPart s1) (Path.endp s1) (Path.matchedSlash s1)
                     (Path.preDotState s1)
    else if negb (Path.preDotState s1 =? 1)
    then Path.mkScan (Path.startDot s1) (Path.startPart s1) (Path.endp s1)
                     (Path.matchedSlash s1) 1
    else s1
  else if negb (Path.startDot s1 =? -1)
  then Path.mkScan (Path.startDot s1) (Path.startPart s1) (Path.endp s1)
                   (Path.matchedSlash s1) (-1)
  else s1.

(** The scan of the characters [t], the first of which is at position [k]:
    the last character is looked at first. *)
Fixpoint scan (k : Z) (t : list ascii) (s0 : Path.Scan) : Path.Scan :=
  match t with
  | [] => s0
  | c :: t' => scanChar k c (scan (k + 1) t' s0)
  end.

(** What [preDotState] records of the characters [a] before the last dot. *)
Definition headState (a : list ascii) : Z :=
  match a with
  | [] => 0
  | x :: _ => if isDot x then 1 else -1
  end.

Definition noSeparator (win : bool) (t : list ascii) : bool :=
  forallb (fun c => negb (Path.isPathSeparator win c)) t.

Definition noDot (t : list ascii) : bool := forallb (fun c => negb (isDot c)) t.

Definition scan0 : Path.Scan := Path.mkScan (-1) 0 (-1) true 0.

(** The extension [extname] finds when the last dot is between [a] and
    [b]. *)
Definition extOf (a b : list ascii) : string :=
  match a with
  | [] => ""
  | x :: _ =>
    if isDot x && (Z.of_nat (List.length a) =? 1) && (Z.of_nat (List.length b) =? 0)
    then ""
    else string_of_list_ascii (Path.CHAR_DOT :: b)
  end.

(** ** What the script receives from Node *)

(** An item of [fs.readdirSync(dir, { withFileTypes: true })]. *)
Module Dirent.

Inductive Kind : Type :=
| File
| Directory
| SymbolicLink
| Special.

Record t : Type := mk { name : string; kind : Kind }.

Definition isDirectory (d : t) : bool :=
  match kind d with Directory => true | _ => false end.

Definition isFile (d : t) : bool :=
  match kind d with File => true | _ => false end.

End Dirent.

(** The [key] argument of a [keypress] event. *)
Module Key.

Record t : Type := mk { name : option string; ctrl : bool }.

Definition named (k : t) (s : string) : bool :=
  match name k with
  | Some n => String.eqb n s
  | None => false
  end.

End Key.

(** [type Entry = { name: string; isDir: boolean }] *)
Record Entry : Type := mkEntry { name : string; isDir : bool }.

Definition Env : Type := list (string * string).

Inductive Stdio : Type :=
| StdioPipe
| StdioInherit
| StdioIgnore.

(** The arguments of a [spawnSync] call. *)
Record SpawnRequest : Type := mkSpawn {
  cmd : string;
  args : list string;
  stdio : Stdio;
  shell : bool;
  env : Env;
  cwd : string
}.

(** What the script can read of the value [spawnSync] returns: [error] is
    set when the child could not be started, [status] is the exit status of
    a child that ran to its end. *)
Record SpawnResult : Type := mkResult {
  error : option string;
  status : option Z
}.

(** The exception [fs.readdirSync] throws, with its error code. *)
Inductive Exception : Type :=
| FilesystemError (code : string) (path : string).

(** The platform as one handler invocation finds it. *)
Record World : Type := mkWorld {
  readdirSync : string -> JS.result Exception (list Dirent.t);
  spawnSync : SpawnRequest -> SpawnResult;
  isTTY : bool
}.

(** What the script does to the terminal.  Colour codes and pictographs are
    left out of the texts; [Row] stands for the line [render] prints for one
    entry, [Child] for whatever the child writes on the inherited streams. *)
Inductive Output : Type :=
| ClearScreen
| Log (text : string)
| LogError (text message : string)
| Header (dir : string)
| Row (isSelected : bool) (e : Entry)
| Separator
| EmitKeypressEvents
| SetRawMode (on : bool)
| Pause
| Resume
| Child (req : SpawnRequest).

(** ** State *)

Record State : Type := mkState {
  currentDir : string;
  selected : JS.num;
  waitingForKey : bool;
  entries : list Entry
}.

(** How a handler invocation ends: it returns and the event loop goes on,
    it calls [process.exit], or an exception leaves it uncaught, which ends
    the process abnormally. *)
Inductive Outcome : Type :=
| Running (st : State)
| Exited (code : Z)
| Uncaught (e : Exception).

Definition EXTENSIONS : list string := [".ts"; ".js"].

Definition parentEntry : Entry := mkEntry ".." true.

(** ** A small POSIX instance

    A root directory [/tmp/proj] holding the file [a.ts], the directory
    [sub] (holding [b.js]) and the directory [.git]; paths are absolute and
    normalized, so that resolving changes nothing, joining appends a
    component and the parent is what comes before the last slash; names are
    compared by character codes. *)

Module Model.

Definition ROOT_DIR : string := "/tmp/proj".

Definition resolve (p : string) : string := p.

Definition join (p n : string) : string := String.append p (String "/" n).

Fixpoint hasSlash (s : string) : bool :=
  match s with
  | EmptyString => false
  | String c rest => Ascii.eqb c "/" || hasSlash rest
  end.

Fixpoint dirname (s : string) : string :=
  match s with
  | EmptyString => EmptyString
  | String c rest => if hasSlash rest then String c (dirname rest) else EmptyString
  end.

Definition compare (a b : string) : Z :=
  match String.compare a b with
  | Lt => -1
  | Eq => 0
  | Gt => 1
  end.

Definition env : Env := [("PATH", "/usr/bin")].

Definition tree (dir : string) : JS.result Exception (list Dirent.t) :=
  if String.eqb dir "/tmp/proj" then
    JS.Ok [Dirent.mk "a.ts" Dirent.File;
           Dirent.mk "sub" Dirent.Directory;
           Dirent.mk ".git" Dirent.Directory]
  else if String.eqb dir "/tmp/proj/sub" then
    JS.Ok [Dirent.mk "b.js" Dirent.File]
  else JS.Throw (FilesystemError "ENOENT" dir).

(** The same tree after [/tmp/proj] has lost [a.ts]. *)
Definition pruned (dir : string) : JS.result Exception (list Dirent.t) :=
  if String.eqb dir "/tmp/proj" then
    JS.Ok [Dirent.mk "sub" Dirent.Directory]
  else tree dir.

(** Everything has been removed. *)
Definition removed (dir : string) : JS.result Exception (list Dirent.t) :=
  JS.Throw (FilesystemError "ENOENT" dir).

(** A root directory without any script. *)
Definition bare (dir : string) : JS.result Exception (list Dirent.t) :=
  if String.eqb dir "/tmp/proj" then
    JS.Ok [Dirent.mk "README.md" Dirent.File; Dirent.mk ".git" Dirent.Directory]
  else JS.Throw (FilesystemError "ENOENT" dir).


(** A root holding the directories [.git] and [.hooks.ts] and the files
    [.setup.ts] and [.ts]. *)
Definition dotted (dir : string) : JS.result Exception (list Dirent.t) :=
  if String.eqb dir "/tmp/proj" then
    JS.Ok [Dirent.mk ".git" Dirent.Directory;
           Dirent.mk ".hooks.ts" Dirent.Directory;
           Dirent.mk ".setup.ts" Dirent.File;
           Dirent.mk ".ts" Dirent.File]
  else JS.Throw (FilesystemError "ENOENT" dir).

(** Children that run and exit with [z]; a child that cannot be started. *)
Definition exits (z : Z) (req : SpawnRequest) : SpawnResult :=
  mkResult None (Some z).

Definition fails (req : SpawnRequest) : SpawnResult :=
  mkResult (Some "spawnSync npx ENOENT") None.

Definition world : World := mkWorld tree (exits 0) true.
Definition worldExit (z : Z) : World := mkWorld tree (exits z) true.
Definition worldNoInterpreter : World := mkWorld tree fails true.
Definition worldPruned : World := mkWorld pruned (exits 0) true.
Definition worldRemoved : World := mkWorld removed (exits 0) true.
Definition worldBare : World := mkWorld bare (exits 0) true.
Definition worldDotted : World := mkWorld dotted (exits 0) true.

Definition key (n : string) : Key.t := Key.mk (Some n) false.
Definition ctrlC : Key.t := Key.mk (Some "c") true.

Definition rootEntries : list Entry := [mkEntry "sub" true; mkEntry "a.ts" false].
Definition subEntries : list Entry := [mkEntry ".." true; mkEntry "b.js" false].

(** Browsing the root with the selection on [sub], on [a.ts]; browsing
    [sub]; awaiting the acknowledgment of a run of [a.ts]. *)
Definition atRoot : State := mkState "/tmp/proj" (JS.Int 0) false rootEntries.
Definition onFile : State := mkState "/tmp/proj" (JS.Int 1) false rootEntries.
Definition inSub : State := mkState "/tmp/proj/sub" (JS.Int 0) false subEntries.
Definition awaiting : State := mkState "/tmp/proj" (JS.Int 1) true rootEntries.

(** Browsing the root after everything that can be listed has gone, before
    and after an arrow key. *)
Definition emptied : State := mkState "/tmp/proj" (JS.Int 0) false [].
Definition adrift : State := mkState "/tmp/proj" JS.NaN false [].

End Model.

Section Runner.

(** [process.argv[2]] resolved, or [process.cwd()] *)
Variable ROOT_DIR : string.
(** [process.platform === "win32"] *)
Variable IS_WIN : bool.
(** [process.env] *)
Variable process_env : Env.

(** [path.resolve], [path.join], [path.dirname] *)
Variable path_resolve : string -> string.
Variable path_join : string -> string -> string.
Variable path_dirname : string -> string.
(** [a.localeCompare(b)] *)
Variable localeCompare : string -> string -> Z.

Definition path_extname : string -> string := Path.extname IS_WIN.

(** *** Helpers *)

Definition keepDir (d : Dirent.t) : bool :=
  Dirent.isDirectory d && negb (JS.startsWith (Dirent.name d) ".").

Definition keepFile (d : Dirent.t) : bool :=
  Dirent.isFile d && JS.includes EXTENSIONS (path_extname (Dirent.name d)).

Definition byName (a b : Entry) : Z := localeCompare (name a) (name b).

Definition dirsOf (items : list Dirent.t) : list Entry :=
  JS.sort byName
    (map (fun d => mkEntry (Dirent.name d) true) (filter keepDir items)).

Definition filesOf (items : list Dirent.t) : list Entry :=
  JS.sort byName
    (map (fun d => mkEntry (Dirent.name d) false) (filter keepFile items)).

(** [path.resolve(dir) !== path.resolve(ROOT_DIR)] *)
Definition notAtRoot (dir : string) : bool :=
  negb (String.eqb (path_resolve dir) (path_resolve ROOT_DIR)).

(** The body of [getEntries] once the directory has been read. *)
Definition withParent (items : list Dirent.t) (dir : string) : list Entry :=
  if notAtRoot dir
  then parentEntry :: dirsOf items ++ filesOf items
  else dirsOf items ++ filesOf items.

Definition getEntries (w : World) (dir : string) : JS.result Exception (list Entry) :=
  match readdirSync w dir with
  | JS.Ok items => JS.Ok (withParent items dir)
  | JS.Throw e => JS.Throw e
  end.

Definition clearScreen : list Output := [ClearScreen].

Fixpoint rows (sel : JS.num) (i : Z) (es : list Entry) : list Output :=
  match es with
  | [] => []
  | e :: rest =>
    Row (match sel with JS.Int z => i =? z | JS.NaN => false end) e
      :: rows sel (i + 1) rest
  end.

(** [render(entries)], which also reads [currentDir] and [selected].  The
    preview it asks [getPreview] for is never printed, and [getPreview]
    catches what reading throws, so that call is left out. *)
Definition render (dir : string) (sel : JS.num) (es : list Entry) : list Output :=
  clearScreen ++ [Header dir] ++ rows sel 0 es ++ [Separator].

(** *** The launcher *)

Definition fullPathOf (dir file : string) : string :=
  path_resolve (path_join dir file).

(** The [if (ext === ".ts")] cascade of [runFile]. *)
Definition command (ext fullPath : string) : string * list string :=
  if String.eqb ext ".ts" then
    if IS_WIN
    then ("cmd", ["/c"; "npx"; "tsx"; fullPath])
    else ("npx", ["tsx"; fullPath])
  else
    (if IS_WIN then "cmd" else "node",
     if IS_WIN then ["/c"; "node"; fullPath] else [fullPath]).

Definition spawnRequest (dir file : string) : SpawnRequest :=
  let fullPath := fullPathOf dir file in
  let '(c, a) := command (path_extname file) fullPath in
  mkSpawn c a StdioInherit false process_env (path_dirname fullPath).

Definition rawMode (w : World) (on : bool) : list Output :=
  if isTTY w then [SetRawMode on] else [].

(** [runFile(file)] returns nothing; all it does is what it writes. *)
Definition runFile (w : World) (dir file : string) : list Output :=
  let result := spawnSync w (spawnRequest dir file) in
  clearScreen
  ++ [Log (String.append "Ejecutando: " file); Separator]
  ++ rawMode w false
  ++ [Pause; Child (spawnRequest dir file)]
  ++ match error result with
     | Some message => [LogError "Error al ejecutar:" message]
     | None => []
     end
  ++ [Resume]
  ++ rawMode w true
  ++ [Separator; Log "Presiona cualquier tecla para volver..."].

(** *** Main *)

Definition main (w : World) : list Output * Outcome :=
  match getEntries w ROOT_DIR with
  | JS.Throw e => ([], Uncaught e)
  | JS.Ok es =>
    if (Z.of_nat (List.length es) =? 0)
    then ([Log (String.append "No se encontraron archivos .ts / .js en: " ROOT_DIR)], Exited 0)
    else ([EmitKeypressEvents] ++ rawMode w true ++ render ROOT_DIR (JS.Int 0) es,
          Running (mkState ROOT_DIR (JS.Int 0) false es))
  end.

(** The listener [main] registers for [keypress]. *)
Definition keypress (w : World) (key : option Key.t) (st : State)
  : list Output * Outcome :=
  match key with
  | None => ([], Running st)
  | Some key =>
    if waitingForKey st then
      match getEntries w (currentDir st) with
      | JS.Throw e => ([], Uncaught e)
      | JS.Ok es =>
        let sel := if JS.ge (selected st) (JS.length es)
                   then JS.sub (JS.length es) (JS.Int 1)
                   else selected st in
        (render (currentDir st) sel es,
         Running (mkState (currentDir st) sel false es))
      end
    else if Key.named key "q" || (Key.ctrl key && Key.named key "c") then
      (clearScreen, Exited 0)
    else if Key.named key "r" then
      match getEntries w (currentDir st) with
      | JS.Throw e => ([], Uncaught e)
      | JS.Ok es =>
        (render (currentDir st) (JS.Int 0) es,
         Running (mkState (currentDir st) (JS.Int 0) false es))
      end
    else if Key.named key "up" then
      let sel := JS.rem (JS.add (JS.sub (selected st) (JS.Int 1))
                                (JS.length (entries st)))
                        (JS.length (entries st)) in
      (render (currentDir st) sel (entries st),
       Running (mkState (currentDir st) sel false (entries st)))
    else if Key.named key "down" then
      let sel := JS.rem (JS.add (selected st) (JS.Int 1))
                        (JS.length (entries st)) in
      (render (currentDir st) sel (entries st),
       Running (mkState (currentDir st) sel false (entries st)))
    else if Key.named key "return" then
      match JS.index (entries st) (selected st) with
      | None => ([], Running st)
      | Some cur =>
        if isDir cur then
          let dir := if String.eqb (name cur) ".."
                     then path_dirname (currentDir st)
                     else path_join (currentDir st) (name cur) in
          match getEntries w dir with
          | JS.Throw e => ([], Uncaught e)
          | JS.Ok es =>
            (render dir (JS.Int 0) es, Running (mkState dir (JS.Int 0) false es))
          end
        else
          (runFile w (currentDir st) (name cur),
           Running (mkState (currentDir st) (selected st) true (entries st)))
      end
    else ([], Running st)
  end.

(** ** Notions the properties are stated with *)

(** A name a directory can give to one of its children: not empty, without
    a separator, and neither of the two names [readdirSync] leaves out. *)
Definition segment (n : string) : bool :=
  negb (String.eqb n "")
  && forallb (fun c => negb (Path.isPathSeparator IS_WIN c)) (list_ascii_of_string n)
  && negb (String.eqb n ".")
  && negb (String.eqb n "..").

Definition segments (names : list string) : Prop :=
  Forall (fun n => segment n = true) names.

(** The directory reached from [ROOT_DIR] by going down through [names]. *)
Definition under (names : list string) : string :=
  fold_left path_join names ROOT_DIR.

(** [dir] is [ROOT_DIR] or lies below it. *)
Definition descends (dir : string) : Prop :=
  exists names, segments names /\ dir = under names.

(** Directories only hold children with proper names. *)
Definition wfWorld (w : World) : Prop :=
  forall dir items,
    readdirSync w dir = JS.Ok items ->
    Forall (fun d => segment (Dirent.name d) = true) items.

(** The states the event loop can be in. *)
Inductive reachable : State -> Prop :=
| reach_main w out st :
    wfWorld w ->
    main w = (out, Running st) ->
    reachable st
| reach_keypress w key out st st' :
    wfWorld w ->
    reachable st ->
    keypress w key st = (out, Running st') ->
    reachable st'.

(** [selected] is an index of [entries]. *)
Definition validSelection (st : State) : Prop :=
  exists i, selected st = JS.Int i /\ 0 <= i < Z.of_nat (List.length (entries st)).

(** [entries] is a listing of [currentDir]. *)
Definition listed (st : State) : Prop :=
  exists items,
    Forall (fun d => segment (Dirent.name d) = true) items
    /\ entries st = withParent items (currentDir st).

Record Inv (st : State) : Prop := mkInv {
  inv_descends : descends (currentDir st);
  inv_listed : listed st;
  inv_selected : entries st <> [] -> validSelection st;
  inv_waiting : waitingForKey st = true -> entries st <> []
}.

(** The order [sort] puts entries in. *)
Definition nameLe (a b : Entry) : Prop := byName a b <= 0.

(** The handler returned and the event loop goes on. *)
Definition survives (r : list Output * Outcome) : Prop :=
  exists st, snd r = Running st.

(** The process is over: [process.exit] was called or an exception went
    uncaught. *)
Definition terminated (r : list Output * Outcome) : Prop :=
  match snd r with
  | Running _ => False
  | Exited _ | Uncaught _ => True
  end.

(** The script wrote [o] on the terminal. *)
Definition shows (r : list Output * Outcome) (o : Output) : Prop := In o (fst r).

Definition isQuit (key : Key.t) : bool :=
  Key.named key "q" || (Key.ctrl key && Key.named key "c").

(** What [selected] becomes when a key acknowledges an execution. *)
Definition clamp (sel : JS.num) (es : list Entry) : JS.num :=
  if JS.ge sel (JS.length es) then JS.sub (JS.length es) (JS.Int 1) else sel.

Definition upOf (st : State) : JS.num :=
  JS.rem (JS.add (JS.sub (selected st) (JS.Int 1)) (JS.length (entries st)))
         (JS.length (entries st)).

Definition downOf (st : State) : JS.num :=
  JS.rem (JS.add (selected st) (JS.Int 1)) (JS.length (entries st)).

(** The transitions of the handler that let the event loop go on. *)
Inductive step (w : World) (st : State) : State -> Prop :=
| step_none :
    step w st st
| step_ack items :
    waitingForKey st = true ->
    readdirSync w (currentDir st) = JS.Ok items ->
    step w st
      (mkState (currentDir st)
               (clamp (selected st) (withParent items (currentDir st)))
               false (withParent items (currentDir st)))
| step_reload items :
    waitingForKey st = false ->
    readdirSync w (currentDir st) = JS.Ok items ->
    step w st
      (mkState (currentDir st) (JS.Int 0) false
               (withParent items (currentDir st)))
| step_up :
    waitingForKey st = false ->
    step w st (mkState (currentDir st) (upOf st) false (entries st))
| step_down :
    waitingForKey st = false ->
    step w st (mkState (currentDir st) (downOf st) false (entries st))
| step_parent cur items :
    waitingForKey st = false ->
    JS.index (entries st) (selected st) = Some cur ->
    isDir cur = true ->
    name cur = ".." ->
    readdirSync w (path_dirname (currentDir st)) = JS.Ok items ->
    step w st
      (mkState (path_dirname (currentDir st)) (JS.Int 0) false
               (withParent items (path_dirname (currentDir st))))
| step_child cur items :
    waitingForKey st = false ->
    JS.index (entries st) (selected st) = Some cur ->
    isDir cur = true ->
    name cur <> ".." ->
    readdirSync w (path_join (currentDir st) (name cur)) = JS.Ok items ->
    step w st
      (mkState (path_join (currentDir st) (name cur)) (JS.Int 0) false
               (withParent items (path_join (currentDir st) (name cur))))
| step_run cur :
    waitingForKey st = false ->
    JS.index (entries st) (selected st) = Some cur ->
    isDir cur = false ->
    step w st (mkState (currentDir st) (selected st) true (entries st)).

(** The executable and the arguments that come before the path of the file:
    the table the cascade of [runFile] amounts to. *)
Definition interpreter (ext : string) (win : bool) : string * list string :=
  match String.eqb ext ".ts", win with
  | true, true => ("cmd", ["/c"; "npx"; "tsx"])
  | true, false => ("npx", ["tsx"])
  | false, true => ("cmd", ["/c"; "node"])
  | false, false => ("node", [])
  end.

(** A status that is not zero leaves on the terminal something a zero
    status does not: what it takes for the status to be reported. *)
Definition statusReported (display : SpawnResult -> list Output) : Prop :=
  forall z, z <> 0 ->
    display (mkResult None (Some z)) <> display (mkResult None (Some 0)).

(** *** The event loop

    The last line of the script calls [main]; afterwards Node hands the key
    presses to the listener one at a time, each in the world of its moment,
    until the process exits or an exception goes uncaught. *)

Fixpoint loop (events : list (World * option Key.t)) (st : State)
  : list Output * Outcome :=
  match events with
  | [] => ([], Running st)
  | (w, key) :: rest =>
    match keypress w key st with
    | (out, Running st') =>
      let '(out', r) := loop rest st' in (out ++ out', r)
    | r => r
    end
  end.

Definition session (w0 : World) (events : list (World * option Key.t))
  : list Output * Outcome :=
  match main w0 with
  | (out, Running st) =>
    let '(out', r) := loop events st in (out ++ out', r)
  | r => r
  end.

(** Kinds of terminal events. *)
Definition isChild (o : Output) : bool :=
  match o with Child _ => true | _ => false end.

Definition isTerminalControl (o : Output) : bool :=
  match o with
  | SetRawMode _ | Pause | Resume | Child _ => true
  | _ => false
  end.

(** The entry under the cursor is a file the lister keeps. *)
Definition onScript (st : State) : Prop :=
  exists cur,
    JS.index (entries st) (selected st) = Some cur
    /\ isDir cur = false
    /\ In (path_extname (name cur)) EXTENSIONS.

(** ** Assumptions on the platform *)

(** [localeCompare] is a consistent comparator. *)
Hypothesis localeCompare_sym :
  forall a b, Z.sgn (localeCompare b a) = - Z.sgn (localeCompare a b).
Hypothesis localeCompare_trans :
  forall a b c,
    localeCompare a b <= 0 -> localeCompare b c <= 0 -> localeCompare a c <= 0.

(** [ROOT_DIR] is absolute and normalized, so that going down by a name and
    up again gives back where one was. *)
Hypothesis path_dirname_join :
  forall names n,
    segments names -> segment n = true ->
    path_dirname (path_join (under names) n) = under names.

(** ** Sorting *)

Lemma insert_Permutation {A : Type} (cmp : A -> A -> Z) (x : A) (l : list A) :
  Permutation (JS.insert cmp x l) (x :: l).
Proof.
  induction l as [|y l IH]; simpl.
  - apply Permutation_refl.
  - destruct (cmp x y <=? 0).
    + apply Permutation_refl.
    + apply perm_trans with (y :: x :: l).
      * now apply perm_skip.
      * apply perm_swap.
Qed.

Lemma sort_Permutation {A : Type} (cmp : A -> A -> Z) (l : list A) :
  Permutation (JS.sort cmp l) l.
Proof.
  induction l as [|x l IH]; simpl.
  - apply perm_nil.
  - apply perm_trans with (x :: JS.sort cmp l).
    + apply insert_Permutation.
    + now apply perm_skip.
Qed.

Lemma sort_In {A : Type} (cmp : A -> A -> Z) (l : list A) (x : A) :
  In x (JS.sort cmp l) <-> In x l.
Proof.
  split; apply Permutation_in.
  - apply sort_Permutation.
  - apply Permutation_sym, sort_Permutation.
Qed.

Lemma byName_flip (a b : Entry) : 0 < byName a b -> byName b a <= 0.
Proof.
  unfold byName. intros H.
  pose proof (localeCompare_sym (name a) (name b)) as S.
  rewrite (Z.sgn_pos _ H) in S.
  destruct (Z.sgn_spec (localeCompare (name b) (name a))) as [[? ?]|[[? ?]|[? ?]]]; lia.
Qed.

Lemma nameLe_trans (a b c : Entry) : nameLe a b -> nameLe b c -> nameLe a c.
Proof. unfold nameLe, byName. apply localeCompare_trans. Qed.

Lemma insert_sorted (x : Entry) (l : list Entry) :
  StronglySorted nameLe l -> StronglySorted nameLe (JS.insert byName x l).
Proof.
  induction 1 as [|y l Hs IH Hy]; simpl.
  - repeat constructor.
  - destruct (byName x y <=? 0) eqn:E.
    + apply Z.leb_le in E.
      constructor; [now constructor|].
      constructor; [exact E|].
      eapply Forall_impl; [|exact Hy].
      intros z Hz. now apply nameLe_trans with y.
    + apply Z.leb_gt in E.
      constructor; [exact IH|].
      apply Forall_forall. intros z Hz.
      apply (Permutation_in _ (insert_Permutation byName x l)) in Hz.
      destruct Hz as [<-|Hz].
      * now apply byName_flip.
      * rewrite Forall_forall in Hy. now apply Hy.
Qed.

Lemma sort_sorted (l : list Entry) : StronglySorted nameLe (JS.sort byName l).
Proof.
  induction l as [|x l IH]; simpl.
  - constructor.
  - now apply insert_sorted.
Qed.

(** ** The directory lister *)

Lemma filter_Permutation {A : Type} (f : A -> bool) (l l' : list A) :
  Permutation l l' -> Permutation (filter f l) (filter f l').
Proof.
  induction 1 as [|x l l' _ IH|x y l|l l' l'' _ IH1 _ IH2]; simpl.
  - apply perm_nil.
  - destruct (f x); [now apply perm_skip|exact IH].
  - destruct (f x), (f y);
      try apply perm_swap; try apply Permutation_refl.
  - now apply perm_trans with (filter f l').
Qed.

Lemma withParent_eq (items : list Dirent.t) (dir : string) :
  withParent items dir
  = (if notAtRoot dir then [parentEntry] else []) ++ dirsOf items ++ filesOf items.
Proof. unfold withParent. now destruct (notAtRoot dir). Qed.

Lemma dirsOf_In (items : list Dirent.t) (e : Entry) :
  In e (dirsOf items)
  <-> exists d, In d items /\ keepDir d = true /\ e = mkEntry (Dirent.name d) true.
Proof.
  unfold dirsOf. rewrite sort_In, in_map_iff. split.
  - intros (d & <- & H). apply filter_In in H. exists d. tauto.
  - intros (d & H1 & H2 & ->). exists d. split; [reflexivity|].
    apply filter_In. tauto.
Qed.

Lemma filesOf_In (items : list Dirent.t) (e : Entry) :
  In e (filesOf items)
  <-> exists d, In d items /\ keepFile d = true /\ e = mkEntry (Dirent.name d) false.
Proof.
  unfold filesOf. rewrite sort_In, in_map_iff. split.
  - intros (d & <- & H). apply filter_In in H. exists d. tauto.
  - intros (d & H1 & H2 & ->). exists d. split; [reflexivity|].
    apply filter_In. tauto.
Qed.

(** An entry of a listing is the parent entry, a kept directory or a kept
    file. *)
Lemma withParent_In (items : list Dirent.t) (dir : string) (e : Entry) :
  In e (withParent items dir)
  <-> (notAtRoot dir = true /\ e = parentEntry)
      \/ In e (dirsOf items) \/ In e (filesOf items).
Proof.
  rewrite withParent_eq, !in_app_iff.
  destruct (notAtRoot dir); simpl; intuition congruence.
Qed.

Lemma includes_In (l : list string) (s : string) :
  JS.includes l s = true <-> In s l.
Proof.
  unfold JS.includes. rewrite existsb_exists. split.
  - intros (x & H & E). apply String.eqb_eq in E. now subst.
  - intros H. exists s. split; [exact H|apply String.eqb_refl].
Qed.



(** C3.  A listing holds no subdirectory whose name starts with a dot (the
    parent entry is not a child: [readdirSync] never returns that name) and
    no file whose extension is not .ts or .js; every entry other than the
    parent entry is a directory with a name that does not start with a dot
    or a file with one of the two extensions. *)
Theorem hidden_and_foreign_excluded :
  forall items dir,
    (forall d,
       Dirent.isDirectory d = true ->
       JS.startsWith (Dirent.name d) "." = true ->
       Dirent.name d <> ".." ->
       ~ In (mkEntry (Dirent.name d) true) (withParent items dir))
    /\ (forall d,
         Dirent.isFile d = true ->
         ~ In (path_extname (Dirent.name d)) EXTENSIONS ->
         ~ In (mkEntry (Dirent.name d) false) (withParent items dir))
    /\ (forall e,
         In e (withParent items dir) ->
         e = parentEntry
         \/ (isDir e = true /\ JS.startsWith (name e) "." = false)
         \/ (isDir e = false /\ In (path_extname (name e)) EXTENSIONS)).
Proof.
  intros items dir.
  assert (K : forall e,
             In e (withParent items dir) ->
             e = parentEntry
             \/ (isDir e = true /\ JS.startsWith (name e) "." = false)
             \/ (isDir e = false /\ In (path_extname (name e)) EXTENSIONS)).
  { intros e H. apply withParent_In in H.
    destruct H as [[_ ->]|[H|H]]; [now left|right; left|right; right].
    - apply dirsOf_In in H. destruct H as (d & _ & Hk & ->). simpl.
      unfold keepDir in Hk. apply andb_prop in Hk. destruct Hk as [_ Hk].
      split; [reflexivity|]. now apply negb_true_iff in Hk.
    - apply filesOf_In in H. destruct H as (d & _ & Hk & ->). simpl.
      unfold keepFile in Hk. apply andb_prop in Hk. destruct Hk as [_ Hk].
      split; [reflexivity|]. apply (proj1 (includes_In _ _) Hk). }
  repeat split.
  - intros d _ Hdot Hne H. apply K in H. simpl in H.
    destruct H as [H|[[_ H]|[H _]]]; try congruence.
    injection H as H. contradiction.
  - intros d _ Hext H. apply K in H. simpl in H.
    destruct H as [H|[[H _]|[_ H]]]; try discriminate. contradiction.
  - exact K.
Qed.

(** C10.  The dot rule is applied to directories only.  In what
    [getEntries] returns for a directory it can read, a file whose name
    starts with a dot and whose extension is .ts or .js is listed, for
    instance .setup.ts, while a directory whose name starts with a dot is
    not, a directory called .setup.ts included; and a file called .ts or .js
    is never listed, because [path.extname] gives it the empty extension. *)
Theorem hidden_marker_spares_files :
  (forall w dir items,
     readdirSync w dir = JS.Ok items ->
     exists es,
       getEntries w dir = JS.Ok es
       /\ (forall d,
             In d items ->
             Dirent.isFile d = true ->
             JS.startsWith (Dirent.name d) "." = true ->
             In (path_extname (Dirent.name d)) EXTENSIONS ->
             In (mkEntry (Dirent.name d) false) es)
       /\ (forall d,
             Dirent.isDirectory d = true ->
             JS.startsWith (Dirent.name d) "." = true ->
             Dirent.name d <> ".." ->
             ~ In (mkEntry (Dirent.name d) true) es)
       /\ (In (Dirent.mk ".setup.ts" Dirent.File) items ->
           In (mkEntry ".setup.ts" false) es)
       /\ ~ In (mkEntry ".setup.ts" true) es
       /\ ~ In (mkEntry ".ts" false) es
       /\ ~ In (mkEntry ".js" false) es)
  /\ path_extname ".setup.ts" = ".ts"
  /\ path_extname ".ts" = ""
  /\ path_extname ".js" = "".
Proof.
  assert (K : forall items dir d,
             In d items ->
             Dirent.isFile d = true ->
             In (path_extname (Dirent.name d)) EXTENSIONS ->
             In (mkEntry (Dirent.name d) false) (withParent items dir)).
  { intros items dir d Hin Hf Hext.
    apply withParent_In. right; right. apply filesOf_In.
    exists d. split; [exact Hin|]. split; [|reflexivity].
    unfold keepFile. rewrite Hf. apply (proj2 (includes_In _ _) Hext). }
  assert (E0 : path_extname ".setup.ts" = ".ts")
    by (unfold path_extname; destruct IS_WIN; reflexivity).
  assert (E1 : path_extname ".ts" = "")
    by (unfold path_extname; destruct IS_WIN; reflexivity).
  assert (E2 : path_extname ".js" = "")
    by (unfold path_extname; destruct IS_WIN; reflexivity).
  assert (N : forall items dir n,
             path_extname n = "" ->
             ~ In (mkEntry n false) (withParent items dir)).
  { intros items dir n En H. apply withParent_In in H.
    destruct H as [[_ H]|[H|H]].
    - discriminate H.
    - apply dirsOf_In in H. destruct H as (d & _ & _ & H). discriminate H.
    - apply filesOf_In in H. destruct H as (d & _ & Hk & H).
      injection H as H. subst n.
      unfold keepFile in Hk. apply andb_prop in Hk. destruct Hk as [_ Hk].
      rewrite En in Hk. discriminate Hk. }
  assert (H : forall items dir n,
             JS.startsWith n "." = true -> n <> ".." ->
             ~ In (mkEntry n true) (withParent items dir)).
  { intros items dir n Hdot Hne H. apply withParent_In in H.
    destruct H as [[_ H]|[H|H]].
    - injection H as H. contradiction.
    - apply dirsOf_In in H. destruct H as (d & _ & Hk & H).
      injection H as H. subst n.
      unfold keepDir in Hk. rewrite Hdot in Hk.
      now rewrite andb_false_r in Hk.
    - apply filesOf_In in H. destruct H as (d & _ & _ & H). discriminate H. }
  split; [|split; [exact E0|split; [exact E1|exact E2]]].
  intros w dir items R. exists (withParent items dir).
  split; [unfold getEntries; now rewrite R|].
  split; [|split; [|split; [|split; [|split]]]].
  - intros d Hin Hf _ Hext. now apply K.
  - intros d _ Hdot Hne. now apply H.
  - intros Hin.
    apply (K items dir (Dirent.mk ".setup.ts" Dirent.File) Hin eq_refl).
    cbn [Dirent.name]. rewrite E0. simpl. auto.
  - apply H; [reflexivity|discriminate].
  - now apply N.
  - now apply N.
Qed.

(** ** The navigation state machine *)

Lemma getEntries_Ok (w : World) (dir : string) (es : list Entry) :
  getEntries w dir = JS.Ok es
  <-> exists items, readdirSync w dir = JS.Ok items /\ es = withParent items dir.
Proof.
  unfold getEntries. destruct (readdirSync w dir) as [items|e]; split.
  - intros H. injection H as <-. now exists items.
  - intros (items' & H & ->). injection H as ->. reflexivity.
  - discriminate.
  - intros (items' & H & _). discriminate.
Qed.

Lemma getEntries_Throw (w : World) (dir : string) (e : Exception) :
  getEntries w dir = JS.Throw e <-> readdirSync w dir = JS.Throw e.
Proof.
  unfold getEntries. destruct (readdirSync w dir); split; congruence.
Qed.

Lemma index_Some {A : Type} (l : list A) (sel : JS.num) (x : A) :
  JS.index l sel = Some x ->
  exists i, sel = JS.Int i /\ 0 <= i < Z.of_nat (List.length l) /\ In x l.
Proof.
  destruct sel as [z|]; simpl; [|discriminate].
  destruct (z <? 0) eqn:E; [discriminate|]. apply Z.ltb_ge in E.
  intros H. exists z. split; [reflexivity|]. split.
  - assert (L : (Z.to_nat z < List.length l)%nat)
      by (apply nth_error_Some; congruence).
    lia.
  - eapply nth_error_In, H.
Qed.

Lemma keypress_step (w : World) (key : option Key.t) (st st' : State)
      (out : list Output) :
  keypress w key st = (out, Running st') -> step w st st'.
Proof.
  unfold keypress. destruct key as [key|].
  2:{ intros H. injection H as _ <-. constructor. }
  destruct (waitingForKey st) eqn:W.
  { destruct (getEntries w (currentDir st)) as [es|e] eqn:G; [|discriminate].
    apply getEntries_Ok in G. destruct G as (items & R & ->).
    intros H. injection H as _ <-. now apply step_ack. }
  destruct (Key.named key "q" || (Key.ctrl key && Key.named key "c"));
    [discriminate|].
  destruct (Key.named key "r").
  { destruct (getEntries w (currentDir st)) as [es|e] eqn:G; [|discriminate].
    apply getEntries_Ok in G. destruct G as (items & R & ->).
    intros H. injection H as _ <-. now apply step_reload. }
  destruct (Key.named key "up").
  { intros H. injection H as _ <-. now apply step_up. }
  destruct (Key.named key "down").
  { intros H. injection H as _ <-. now apply step_down. }
  destruct (Key.named key "return").
  2:{ intros H. injection H as _ <-. constructor. }
  destruct (JS.index (entries st) (selected st)) as [cur|] eqn:I.
  2:{ intros H. injection H as _ <-. constructor. }
  destruct (isDir cur) eqn:D.
  2:{ intros H. injection H as _ <-. now apply step_run with cur. }
  destruct (String.eqb (name cur) "..") eqn:E.
  - apply String.eqb_eq in E.
    destruct (getEntries w (path_dirname (currentDir st))) as [es|e] eqn:G;
      [|discriminate].
    apply getEntries_Ok in G. destruct G as (items & R & ->).
    intros H. injection H as _ <-. now apply step_parent with cur.
  - apply String.eqb_neq in E.
    destruct (getEntries w (path_join (currentDir st) (name cur))) as [es|e] eqn:G;
      [|discriminate].
    apply getEntries_Ok in G. destruct G as (items & R & ->).
    intros H. injection H as _ <-. now apply step_child.
Qed.

(** *** The invariant *)

Lemma under_snoc (names : list string) (n : string) :
  under (names ++ [n]) = path_join (under names) n.
Proof. unfold under. now rewrite fold_left_app. Qed.

Lemma descends_root : descends ROOT_DIR.
Proof. exists []. split; [constructor|reflexivity]. Qed.

Lemma descends_child (dir n : string) :
  descends dir -> segment n = true -> descends (path_join dir n).
Proof.
  intros (names & Hs & ->) Hn. exists (names ++ [n]). split.
  - apply Forall_app. split; [exact Hs|now constructor].
  - now rewrite under_snoc.
Qed.

Lemma descends_parent (dir : string) :
  descends dir -> dir <> ROOT_DIR -> descends (path_dirname dir).
Proof.
  intros (names & Hs & ->) Hne.
  destruct names as [|n0 names0] using rev_ind; [now elim Hne|].
  clear IHnames0. apply Forall_app in Hs. destruct Hs as [Hs Hn].
  inversion Hn as [|? ? Hn' _]; subst.
  exists names0. split; [exact Hs|].
  rewrite under_snoc. now apply path_dirname_join.
Qed.

Lemma notAtRoot_true (dir : string) :
  notAtRoot dir = true <-> path_resolve dir <> path_resolve ROOT_DIR.
Proof.
  unfold notAtRoot. rewrite negb_true_iff. apply String.eqb_neq.
Qed.

Lemma notAtRoot_differs (dir : string) : notAtRoot dir = true -> dir <> ROOT_DIR.
Proof. intros H E. apply notAtRoot_true in H. now subst. Qed.

(** An entry called [..] is the parent entry: kept directories do not start
    with a dot. *)
Lemma dotdot_is_parent (items : list Dirent.t) (dir : string) (e : Entry) :
  In e (withParent items dir) -> name e = ".." ->
  isDir e = true -> notAtRoot dir = true /\ e = parentEntry.
Proof.
  intros H Hn Hd. apply withParent_In in H.
  destruct H as [H|[H|H]]; [exact H| |].
  - apply dirsOf_In in H. destruct H as (d & _ & Hk & ->). simpl in Hn.
    unfold keepDir in Hk. rewrite Hn in Hk.
    now rewrite andb_false_r in Hk.
  - apply filesOf_In in H. destruct H as (d & _ & _ & ->). discriminate Hd.
Qed.

Lemma directory_is_child (items : list Dirent.t) (dir : string) (e : Entry) :
  Forall (fun d => segment (Dirent.name d) = true) items ->
  In e (withParent items dir) -> isDir e = true -> name e <> ".." ->
  segment (name e) = true.
Proof.
  intros Hs H Hd Hn. apply withParent_In in H.
  destruct H as [[_ ->]|[H|H]]; [now elim Hn| |].
  - apply dirsOf_In in H. destruct H as (d & Hin & _ & ->). simpl.
    rewrite Forall_forall in Hs. now apply Hs.
  - apply filesOf_In in H. destruct H as (d & _ & _ & ->). discriminate Hd.
Qed.

Lemma nonempty_length {A : Type} (l : list A) :
  l <> [] <-> 0 < Z.of_nat (List.length l).
Proof. destruct l; simpl; split; intros; try congruence; lia. Qed.

Lemma clamp_valid (i : Z) (es : list Entry) :
  0 <= i -> es <> [] ->
  exists j, clamp (JS.Int i) es = JS.Int j /\ 0 <= j < Z.of_nat (List.length es).
Proof.
  intros Hi Hne. apply nonempty_length in Hne.
  unfold clamp. simpl.
  destruct (Z.of_nat (List.length es) <=? i) eqn:E.
  - apply Z.leb_le in E. eexists. split; [reflexivity|lia].
  - apply Z.leb_gt in E. eexists. split; [reflexivity|lia].
Qed.

Lemma clamp_min (i : Z) (es : list Entry) :
  clamp (JS.Int i) es = JS.Int (Z.min i (Z.of_nat (List.length es) - 1)).
Proof.
  unfold clamp. simpl.
  destruct (Z.of_nat (List.length es) <=? i) eqn:E.
  - apply Z.leb_le in E. f_equal. lia.
  - apply Z.leb_gt in E. f_equal. lia.
Qed.

Lemma upOf_mod (st : State) (i : Z) :
  selected st = JS.Int i ->
  0 <= i < Z.of_nat (List.length (entries st)) ->
  upOf st
  = JS.Int ((i - 1 + Z.of_nat (List.length (entries st)))
            mod Z.of_nat (List.length (entries st))).
Proof.
  intros Hs Hi. unfold upOf. rewrite Hs. simpl.
  destruct (Z.of_nat (List.length (entries st)) =? 0) eqn:E;
    [apply Z.eqb_eq in E; lia|].
  f_equal. apply Z.rem_mod_nonneg; lia.
Qed.

Lemma downOf_mod (st : State) (i : Z) :
  selected st = JS.Int i ->
  0 <= i < Z.of_nat (List.length (entries st)) ->
  downOf st = JS.Int ((i + 1) mod Z.of_nat (List.length (entries st))).
Proof.
  intros Hs Hi. unfold downOf. rewrite Hs. simpl.
  destruct (Z.of_nat (List.length (entries st)) =? 0) eqn:E;
    [apply Z.eqb_eq in E; lia|].
  f_equal. apply Z.rem_mod_nonneg; lia.
Qed.

Lemma zero_valid (es : list Entry) :
  es <> [] ->
  exists i, JS.Int 0 = JS.Int i /\ 0 <= i < Z.of_nat (List.length es).
Proof.
  intros H. apply nonempty_length in H. exists 0. split; [reflexivity|lia].
Qed.

Lemma step_Inv (w : World) (st st' : State) :
  wfWorld w -> Inv st -> step w st st' -> Inv st'.
Proof.
  intros Hw [Hd Hl Hsel Hwait] Hstep.
  destruct Hstep as [ |items W R|items W R|W|W|cur items W I D N R
                     |cur items W I D N R|cur W I D].
  - now constructor.
  - constructor; simpl; try discriminate.
    + exact Hd.
    + exists items. split; [now apply Hw with (currentDir st)|reflexivity].
    + intros Hne. destruct (Hsel (Hwait W)) as (i & -> & Hi).
      apply clamp_valid; [lia|exact Hne].
  - constructor; simpl; try discriminate.
    + exact Hd.
    + exists items. split; [now apply Hw with (currentDir st)|reflexivity].
    + apply zero_valid.
  - constructor; simpl; try discriminate; try assumption.
    intros Hne. destruct (Hsel Hne) as (i & Hs & Hi).
    unfold validSelection. cbn [selected entries].
    rewrite (upOf_mod st i Hs Hi).
    eexists. split; [reflexivity|].
    apply Z.mod_pos_bound. lia.
  - constructor; simpl; try discriminate; try assumption.
    intros Hne. destruct (Hsel Hne) as (i & Hs & Hi).
    unfold validSelection. cbn [selected entries].
    rewrite (downOf_mod st i Hs Hi).
    eexists. split; [reflexivity|].
    apply Z.mod_pos_bound. lia.
  - apply index_Some in I. destruct I as (i & _ & _ & Hin).
    destruct Hl as (items0 & Hs0 & E). rewrite E in Hin.
    destruct (dotdot_is_parent _ _ _ Hin N D) as [Hroot _].
    constructor; simpl; try discriminate.
    + apply descends_parent; [exact Hd|now apply notAtRoot_differs].
    + exists items. split; [now apply Hw with (path_dirname (currentDir st))|reflexivity].
    + apply zero_valid.
  - apply index_Some in I. destruct I as (i & _ & _ & Hin).
    destruct Hl as (items0 & Hs0 & E). rewrite E in Hin.
    constructor; simpl; try discriminate.
    + apply descends_child; [exact Hd|].
      now apply directory_is_child with items0 (currentDir st).
    + exists items.
      split; [now apply Hw with (path_join (currentDir st) (name cur))|reflexivity].
    + apply zero_valid.
  - constructor; simpl; try assumption.
    intros _. apply index_Some in I. destruct I as (i & _ & Hi & _).
    apply nonempty_length. lia.
Qed.

Lemma main_Inv (w : World) (out : list Output) (st : State) :
  wfWorld w -> main w = (out, Running st) -> Inv st.
Proof.
  intros Hw. unfold main.
  destruct (getEntries w ROOT_DIR) as [es|e] eqn:G; [|discriminate].
  apply getEntries_Ok in G. destruct G as (items & R & ->).
  destruct (Z.of_nat (List.length (withParent items ROOT_DIR)) =? 0);
    [discriminate|].
  intros H. injection H as _ <-.
  constructor; simpl; try discriminate.
  - apply descends_root.
  - exists items. split; [now apply Hw with ROOT_DIR|reflexivity].
  - apply zero_valid.
Qed.

Lemma reachable_Inv (st : State) : reachable st -> Inv st.
Proof.
  induction 1 as [w out st Hw Hm|w key out st st' Hw _ IH Hk].
  - now apply main_Inv with w out.
  - apply step_Inv with w st; [exact Hw|exact IH|].
    now apply keypress_step with key out.
Qed.



(** *** Key presses *)

Lemma named_of (key : Key.t) (s : string) :
  Key.name key = Some s -> forall t, Key.named key t = String.eqb s t.
Proof. intros H t. unfold Key.named. now rewrite H. Qed.

Lemma keypress_up (w : World) (key : Key.t) (st : State) :
  waitingForKey st = false -> Key.name key = Some "up" ->
  keypress w (Some key) st
  = (render (currentDir st) (upOf st) (entries st),
     Running (mkState (currentDir st) (upOf st) false (entries st))).
Proof.
  intros W K. unfold keypress. rewrite W, !(named_of key "up" K).
  cbn [String.eqb Ascii.eqb Bool.eqb andb orb]. now rewrite andb_false_r.
Qed.

Lemma keypress_down (w : World) (key : Key.t) (st : State) :
  waitingForKey st = false -> Key.name key = Some "down" ->
  keypress w (Some key) st
  = (render (currentDir st) (downOf st) (entries st),
     Running (mkState (currentDir st) (downOf st) false (entries st))).
Proof.
  intros W K. unfold keypress. rewrite W, !(named_of key "down" K).
  cbn [String.eqb Ascii.eqb Bool.eqb andb orb]. now rewrite andb_false_r.
Qed.

Lemma keypress_reload (w : World) (key : Key.t) (st : State) :
  waitingForKey st = false -> Key.name key = Some "r" ->
  keypress w (Some key) st
  = match getEntries w (currentDir st) with
    | JS.Throw e => ([], Uncaught e)
    | JS.Ok es =>
      (render (currentDir st) (JS.Int 0) es,
       Running (mkState (currentDir st) (JS.Int 0) false es))
    end.
Proof.
  intros W K. unfold keypress. rewrite W, !(named_of key "r" K).
  cbn [String.eqb Ascii.eqb Bool.eqb andb orb]. now rewrite andb_false_r.
Qed.

Lemma keypress_return (w : World) (key : Key.t) (st : State) (cur : Entry) :
  waitingForKey st = false -> Key.name key = Some "return" ->
  JS.index (entries st) (selected st) = Some cur ->
  keypress w (Some key) st
  = if isDir cur then
      let dir := if String.eqb (name cur) ".."
                 then path_dirname (currentDir st)
                 else path_join (currentDir st) (name cur) in
      match getEntries w dir with
      | JS.Throw e => ([], Uncaught e)
      | JS.Ok es =>
        (render dir (JS.Int 0) es, Running (mkState dir (JS.Int 0) false es))
      end
    else
      (runFile w (currentDir st) (name cur),
       Running (mkState (currentDir st) (selected st) true (entries st))).
Proof.
  intros W K I. unfold keypress. rewrite W, !(named_of key "return" K), I.
  cbn [String.eqb Ascii.eqb Bool.eqb andb orb]. now rewrite andb_false_r.
Qed.

Lemma keypress_ack (w : World) (key : Key.t) (st : State) :
  waitingForKey st = true ->
  keypress w (Some key) st
  = match getEntries w (currentDir st) with
    | JS.Throw e => ([], Uncaught e)
    | JS.Ok es =>
      (render (currentDir st) (clamp (selected st) es) es,
       Running (mkState (currentDir st) (clamp (selected st) es) false es))
    end.
Proof. intros W. unfold keypress. now rewrite W. Qed.

Lemma keypress_quit (w : World) (key : Key.t) (st : State) :
  waitingForKey st = false -> isQuit key = true ->
  keypress w (Some key) st = (clearScreen, Exited 0).
Proof.
  intros W Q. unfold keypress. rewrite W. unfold isQuit in Q. now rewrite Q.
Qed.

(** The handler calls [process.exit] in one place only. *)
Lemma keypress_Exited (w : World) (key : option Key.t) (st : State) (c : Z) :
  snd (keypress w key st) = Exited c ->
  waitingForKey st = false /\ c = 0 /\ exists k, key = Some k /\ isQuit k = true.
Proof.
  unfold keypress, isQuit. destruct key as [k|]; [|discriminate].
  destruct (waitingForKey st).
  { destruct (getEntries w (currentDir st)); discriminate. }
  destruct (Key.named k "q" || (Key.ctrl k && Key.named k "c")) eqn:Q.
  { intros H. injection H as <-. split; [reflexivity|].
    split; [reflexivity|]. exists k. split; [reflexivity|exact Q]. }
  destruct (Key.named k "r").
  { destruct (getEntries w (currentDir st)); discriminate. }
  destruct (Key.named k "up"); [discriminate|].
  destruct (Key.named k "down"); [discriminate|].
  destruct (Key.named k "return"); [|discriminate].
  destruct (JS.index (entries st) (selected st)) as [cur|]; [|discriminate].
  destruct (isDir cur); [|discriminate].
  destruct (getEntries w _); discriminate.
Qed.

(** C4.  While browsing N >= 1 entries with the selection at index i, the
    up key moves the selection to (i - 1 + N) mod N and the down key to
    (i + 1) mod N, whatever i is: up from 0 gives N - 1 and down from N - 1
    gives 0.  In every state of the event loop with N >= 1 the selection is
    such an index. *)
Theorem selection_wraps_around :
  (forall w key st i,
     waitingForKey st = false ->
     1 <= Z.of_nat (List.length (entries st)) ->
     selected st = JS.Int i ->
     0 <= i < Z.of_nat (List.length (entries st)) ->
     let N := Z.of_nat (List.length (entries st)) in
     (Key.name key = Some "up" ->
      snd (keypress w (Some key) st)
      = Running (mkState (currentDir st) (JS.Int ((i - 1 + N) mod N)) false
                         (entries st))
      /\ (i = 0 -> (i - 1 + N) mod N = N - 1))
     /\ (Key.name key = Some "down" ->
         snd (keypress w (Some key) st)
         = Running (mkState (currentDir st) (JS.Int ((i + 1) mod N)) false
                            (entries st))
         /\ (i = N - 1 -> (i + 1) mod N = 0)))
  /\ (forall st,
       reachable st ->
       1 <= Z.of_nat (List.length (entries st)) ->
       validSelection st).
Proof.
  split.
  - intros w key st i W HN Hs Hi N. split; intros K.
    + rewrite (keypress_up w key st W K). simpl.
      rewrite (upOf_mod st i Hs Hi). split; [reflexivity|].
      intros ->. replace (0 - 1 + N) with (N - 1) by lia.
      apply Z.mod_small. lia.
    + rewrite (keypress_down w key st W K). simpl.
      rewrite (downOf_mod st i Hs Hi). split; [reflexivity|].
      intros ->. replace (N - 1 + 1) with N by lia.
      apply Z.mod_same. lia.
  - intros st H HN. destruct (reachable_Inv st H) as [_ _ Hsel _].
    apply Hsel. apply nonempty_length. lia.
Qed.

(** C5.  While browsing, the r key lists the current directory again and
    puts the selection at 0.  The key that acknowledges an execution lists
    the current directory again and leaves the selection i at
    min(i, newCount - 1).  Opening a directory entry, a child or the parent
    entry, lists that directory and puts the selection at 0. *)
Theorem reload_resets_and_ack_clamps :
  (forall w key st items,
     waitingForKey st = false ->
     Key.name key = Some "r" ->
     readdirSync w (currentDir st) = JS.Ok items ->
     snd (keypress w (Some key) st)
     = Running (mkState (currentDir st) (JS.Int 0) false
                        (withParent items (currentDir st))))
  /\ (forall w key st items i,
       waitingForKey st = true ->
       selected st = JS.Int i ->
       readdirSync w (currentDir st) = JS.Ok items ->
       let es := withParent items (currentDir st) in
       snd (keypress w (Some key) st)
       = Running (mkState (currentDir st)
                          (JS.Int (Z.min i (Z.of_nat (List.length es) - 1)))
                          false es))
  /\ (forall w key st cur items,
       waitingForKey st = false ->
       Key.name key = Some "return" ->
       JS.index (entries st) (selected st) = Some cur ->
       isDir cur = true ->
       let dir := if String.eqb (name cur) ".."
                  then path_dirname (currentDir st)
                  else path_join (currentDir st) (name cur) in
       readdirSync w dir = JS.Ok items ->
       snd (keypress w (Some key) st)
       = Running (mkState dir (JS.Int 0) false (withParent items dir))).
Proof.
  repeat split.
  - intros w key st items W K R.
    rewrite (keypress_reload w key st W K). unfold getEntries. now rewrite R.
  - intros w key st items i W Hs R es.
    rewrite (keypress_ack w key st W). unfold getEntries. rewrite R. simpl.
    rewrite Hs. now rewrite clamp_min.
  - intros w key st cur items W K I D dir R.
    rewrite (keypress_return w key st cur W K I), D.
    fold dir. cbv zeta. unfold getEntries. now rewrite R.
Qed.

(** C9, as the script has it.  While an execution awaits its
    acknowledgment no key press makes the script call [process.exit]: any
    key, q and ctrl+c included, lists the current directory again, and goes
    back to browsing when the directory can be read; when it cannot, the
    exception of [readdirSync] leaves the handler uncaught and the process
    is over.  [process.exit] is only called while browsing, on q or ctrl+c,
    with code 0. *)
Theorem acknowledgment_never_quits :
  (forall w key st,
     waitingForKey st = true ->
     (forall c, snd (keypress w (Some key) st) <> Exited c)
     /\ (forall items,
          readdirSync w (currentDir st) = JS.Ok items ->
          getEntries w (currentDir st) = JS.Ok (withParent items (currentDir st))
          /\ let es := withParent items (currentDir st) in
             snd (keypress w (Some key) st)
             = Running (mkState (currentDir st) (clamp (selected st) es) false es))
     /\ (forall e,
          readdirSync w (currentDir st) = JS.Throw e ->
          keypress w (Some key) st = ([], Uncaught e)
          /\ terminated (keypress w (Some key) st)))
  /\ (forall w key st c,
       snd (keypress w key st) = Exited c ->
       waitingForKey st = false
       /\ c = 0
       /\ exists k, key = Some k /\ isQuit k = true)
  /\ (forall w key st,
       waitingForKey st = false ->
       isQuit key = true ->
       snd (keypress w (Some key) st) = Exited 0).
Proof.
  split; [|split].
  - intros w key st W. split; [|split].
    + intros c. rewrite (keypress_ack w key st W).
      destruct (getEntries w (currentDir st)); discriminate.
    + intros items R.
      assert (G : getEntries w (currentDir st)
                  = JS.Ok (withParent items (currentDir st)))
        by (unfold getEntries; now rewrite R).
      split; [exact G|]. intros es.
      rewrite (keypress_ack w key st W). now rewrite G.
    + intros e R.
      assert (K : keypress w (Some key) st = ([], Uncaught e)).
      { rewrite (keypress_ack w key st W). unfold getEntries. now rewrite R. }
      split; [exact K|]. unfold terminated. now rewrite K.
  - intros w key st c. apply keypress_Exited.
  - intros w key st W Q. now rewrite (keypress_quit w key st W Q).
Qed.

(** ** The launcher *)

Lemma spawnRequest_fields (dir file : string) :
  cmd (spawnRequest dir file) = fst (command (path_extname file) (fullPathOf dir file))
  /\ args (spawnRequest dir file)
     = snd (command (path_extname file) (fullPathOf dir file))
  /\ stdio (spawnRequest dir file) = StdioInherit
  /\ shell (spawnRequest dir file) = false
  /\ env (spawnRequest dir file) = process_env
  /\ cwd (spawnRequest dir file) = path_dirname (fullPathOf dir file).
Proof.
  unfold spawnRequest.
  destruct (command (path_extname file) (fullPathOf dir file)) as [c a].
  simpl. repeat split.
Qed.

Lemma command_interpreter (ext fullPath : string) :
  command ext fullPath
  = (fst (interpreter ext IS_WIN), snd (interpreter ext IS_WIN) ++ [fullPath]).
Proof.
  unfold command, interpreter.
  destruct (String.eqb ext ".ts"), IS_WIN; reflexivity.
Qed.

(** C6.  The command [runFile] starts is the interpreter of the table for
    the extension of the file and the platform, followed by the resolved
    path of the file: npx tsx for .ts and node for .js, both behind cmd /c on
    Windows.  The child runs in the directory of that path, on the streams
    of the script, without a shell, in the environment of the script. *)
Theorem interpreter_command :
  forall w dir file,
    let fullPath := path_resolve (path_join dir file) in
    let r := spawnRequest dir file in
    (cmd r, args r)
    = (fst (interpreter (path_extname file) IS_WIN),
       snd (interpreter (path_extname file) IS_WIN) ++ [fullPath])
    /\ (path_extname file = ".ts" ->
        (cmd r, args r)
        = if IS_WIN then ("cmd", ["/c"; "npx"; "tsx"; fullPath])
          else ("npx", ["tsx"; fullPath]))
    /\ (path_extname file = ".js" ->
        (cmd r, args r)
        = if IS_WIN then ("cmd", ["/c"; "node"; fullPath])
          else ("node", [fullPath]))
    /\ cwd r = path_dirname fullPath
    /\ stdio r = StdioInherit
    /\ shell r = false
    /\ env r = process_env
    /\ In (Child r) (runFile w dir file).
Proof.
  intros w dir file fullPath r.
  destruct (spawnRequest_fields dir file) as (Hc & Ha & Hio & Hsh & He & Hw).
  fold r in Hc, Ha, Hio, Hsh, He, Hw.
  rewrite command_interpreter in Hc, Ha. simpl in Hc, Ha.
  repeat split; try assumption.
  - now rewrite Hc, Ha.
  - intros E. rewrite Hc, Ha, E. unfold fullPathOf. fold fullPath.
    now destruct IS_WIN.
  - intros E. rewrite Hc, Ha, E. unfold fullPathOf. fold fullPath.
    now destruct IS_WIN.
  - unfold runFile. fold r. rewrite !in_app_iff. simpl. tauto.
Qed.

Lemma runFile_error (w : World) (dir file message : string) :
  error (spawnSync w (spawnRequest dir file)) = Some message ->
  In (LogError "Error al ejecutar:" message) (runFile w dir file).
Proof.
  intros E. unfold runFile. rewrite E, !in_app_iff. simpl. tauto.
Qed.

Lemma runFile_quiet (w : World) (dir file : string) :
  error (spawnSync w (spawnRequest dir file)) = None ->
  forall text message, ~ In (LogError text message) (runFile w dir file).
Proof.
  intros E text message. unfold runFile, rawMode, clearScreen. rewrite E.
  rewrite !in_app_iff. destruct (isTTY w); simpl; intuition discriminate.
Qed.

(** [runFile] writes the same whatever the exit status is. *)
Lemma runFile_status_blind (w w' : World) (dir file : string) :
  isTTY w = isTTY w' ->
  error (spawnSync w (spawnRequest dir file))
  = error (spawnSync w' (spawnRequest dir file)) ->
  runFile w dir file = runFile w' dir file.
Proof. intros T E. unfold runFile, rawMode. now rewrite T, E. Qed.

(** C7, as the script has it.  When the child cannot be started the message
    of the error is written and the event loop goes on, awaiting the
    acknowledgment.  The exit status of a child is not looked at: what is
    written and the state reached are the same for every status, and a child
    that was started leaves no error on the terminal, so a status that is not
    zero is no error either.  The next key press goes back to browsing with
    a listing read anew, the directory being still readable. *)
Theorem launch_failure_is_not_fatal :
  forall w key st cur,
    waitingForKey st = false ->
    Key.name key = Some "return" ->
    JS.index (entries st) (selected st) = Some cur ->
    isDir cur = false ->
    let r := spawnSync w (spawnRequest (currentDir st) (name cur)) in
    let st' := mkState (currentDir st) (selected st) true (entries st) in
    snd (keypress w (Some key) st) = Running st'
    /\ (forall message,
         error r = Some message ->
         shows (keypress w (Some key) st) (LogError "Error al ejecutar:" message))
    /\ (error r = None ->
        forall text message,
          ~ shows (keypress w (Some key) st) (LogError text message))
    /\ (forall w',
         isTTY w' = isTTY w ->
         error (spawnSync w' (spawnRequest (currentDir st) (name cur))) = error r ->
         keypress w' (Some key) st = keypress w (Some key) st)
    /\ (forall w' key' items,
         readdirSync w' (currentDir st) = JS.Ok items ->
         let es := withParent items (currentDir st) in
         snd (keypress w' (Some key') st')
         = Running (mkState (currentDir st) (clamp (selected st) es) false es)).
Proof.
  intros w key st cur W K I D r st'.
  pose proof (keypress_return w key st cur W K I) as E. rewrite D in E.
  repeat split.
  - now rewrite E.
  - intros message Hm. unfold shows. rewrite E. simpl. now apply runFile_error.
  - intros Hn text message. unfold shows. rewrite E. simpl.
    now apply runFile_quiet.
  - intros w' T Er.
    rewrite E, (keypress_return w' key st cur W K I), D.
    f_equal. now apply runFile_status_blind.
  - intros w' key' items R es.
    rewrite (keypress_ack w' key' st' eq_refl). simpl.
    unfold getEntries. now rewrite R.
Qed.

(** C8, as the script has it.  An exception of [readdirSync] is caught
    nowhere: it leaves the handler uncaught, nothing is written, and the
    event loop does not go on; so does a failure of the first read, in
    [main].  A root directory whose listing is empty makes [main] exit with
    code 0 before any key is read, and q or ctrl+c while browsing exit with
    code 0. *)
Theorem unreadable_directory_is_fatal :
  (forall w key st e,
     readdirSync w (currentDir st) = JS.Throw e ->
     waitingForKey st = true \/ Key.name key = Some "r" ->
     keypress w (Some key) st = ([], Uncaught e)
     /\ ~ survives (keypress w (Some key) st))
  /\ (forall w key st cur e,
       waitingForKey st = false ->
       Key.name key = Some "return" ->
       JS.index (entries st) (selected st) = Some cur ->
       isDir cur = true ->
       readdirSync w (if String.eqb (name cur) ".."
                      then path_dirname (currentDir st)
                      else path_join (currentDir st) (name cur))
       = JS.Throw e ->
       keypress w (Some key) st = ([], Uncaught e))
  /\ (forall w e,
       readdirSync w ROOT_DIR = JS.Throw e -> main w = ([], Uncaught e))
  /\ (forall w items,
       readdirSync w ROOT_DIR = JS.Ok items ->
       withParent items ROOT_DIR = [] ->
       snd (main w) = Exited 0)
  /\ (forall w key st,
       waitingForKey st = false ->
       isQuit key = true ->
       snd (keypress w (Some key) st) = Exited 0).
Proof.
  assert (U : forall w key st e,
             readdirSync w (currentDir st) = JS.Throw e ->
             waitingForKey st = true \/ Key.name key = Some "r" ->
             keypress w (Some key) st = ([], Uncaught e)).
  { intros w key st e R [W|K].
    - rewrite (keypress_ack w key st W). unfold getEntries. now rewrite R.
    - destruct (waitingForKey st) eqn:W.
      + rewrite (keypress_ack w key st W). unfold getEntries. now rewrite R.
      + rewrite (keypress_reload w key st W K). unfold getEntries. now rewrite R. }
  split; [|split; [|split; [|split]]].
  - intros w key st e R K. split; [now apply U|].
    intros [st' Hs]. rewrite (U w key st e R K) in Hs. discriminate Hs.
  - intros w key st cur e W K I D R.
    rewrite (keypress_return w key st cur W K I), D. cbv zeta.
    unfold getEntries. now rewrite R.
  - intros w e R. unfold main, getEntries. now rewrite R.
  - intros w items R E. unfold main, getEntries. rewrite R, E. reflexivity.
  - intros w key st W Q. now rewrite (keypress_quit w key st W Q).
Qed.

(** ** Further properties of the lister *)

Lemma sort_length {A : Type} (cmp : A -> A -> Z) (l : list A) :
  List.length (JS.sort cmp l) = List.length l.
Proof. apply Permutation_length, sort_Permutation. Qed.

(** X1.  What [getEntries] returns for a directory it can read holds the
    parent entry when the directory is not the root, one directory entry for
    each child directory whose name does not start with a dot, one file
    entry for each regular file with extension .ts or .js, and nothing else:
    symbolic links and special files are never listed, and no kept child is
    dropped or repeated. *)
Theorem listing_complete :
  forall w dir items,
    readdirSync w dir = JS.Ok items ->
    exists es,
      getEntries w dir = JS.Ok es
      /\ (forall e,
            In e es
            <-> (path_resolve dir <> path_resolve ROOT_DIR /\ e = parentEntry)
                \/ (exists d, In d items
                              /\ Dirent.kind d = Dirent.Directory
                              /\ JS.startsWith (Dirent.name d) "." = false
                              /\ e = mkEntry (Dirent.name d) true)
                \/ (exists d, In d items
                              /\ Dirent.kind d = Dirent.File
                              /\ In (path_extname (Dirent.name d)) EXTENSIONS
                              /\ e = mkEntry (Dirent.name d) false))
      /\ List.length es
         = ((if notAtRoot dir then 1 else 0)
            + List.length (filter keepDir items)
            + List.length (filter keepFile items))%nat.
Proof.
  intros w dir items R. exists (withParent items dir).
  split; [unfold getEntries; now rewrite R|]. split.
  - intros e. rewrite withParent_In, notAtRoot_true, dirsOf_In, filesOf_In.
    assert (KD : forall d,
               keepDir d = true
               <-> Dirent.kind d = Dirent.Directory
                   /\ JS.startsWith (Dirent.name d) "." = false).
    { intros d. unfold keepDir, Dirent.isDirectory.
      rewrite andb_true_iff, negb_true_iff.
      destruct (Dirent.kind d); intuition discriminate. }
    assert (KF : forall d,
               keepFile d = true
               <-> Dirent.kind d = Dirent.File
                   /\ In (path_extname (Dirent.name d)) EXTENSIONS).
    { intros d. unfold keepFile, Dirent.isFile.
      rewrite andb_true_iff, includes_In.
      destruct (Dirent.kind d); intuition discriminate. }
    split.
    + intros [H|[(d & Hin & Hk & E)|(d & Hin & Hk & E)]].
      * now left.
      * right; left. exists d. apply KD in Hk. tauto.
      * right; right. exists d. apply KF in Hk. tauto.
    + intros [H|[(d & Hin & Hk & Hn & E)|(d & Hin & Hk & Hx & E)]].
      * now left.
      * right; left. exists d. rewrite KD. tauto.
      * right; right. exists d. rewrite KF. tauto.
  - rewrite withParent_eq, !length_app.
    unfold dirsOf, filesOf. rewrite !sort_length, !length_map.
    destruct (notAtRoot dir); simpl; lia.
Qed.

(** Two sorted lists with the same elements are the same list, when no two
    of the elements tie. *)
Lemma sorted_Permutation_eq (l l' : list Entry) :
  (forall a b, In a l -> In b l -> nameLe a b -> nameLe b a -> a = b) ->
  StronglySorted nameLe l -> StronglySorted nameLe l' ->
  Permutation l l' -> l = l'.
Proof.
  intros Hanti Hs. revert l' Hanti.
  induction Hs as [|a l Hs IH Ha]; intros l' Hanti Hs' P.
  - now apply Permutation_nil in P.
  - destruct Hs' as [|b l' Hs' Hb].
    + apply Permutation_sym, Permutation_nil in P. discriminate P.
    + assert (E : a = b).
      { assert (Ia : In a (b :: l'))
          by (apply (Permutation_in _ P); now left).
        assert (Ib : In b (a :: l))
          by (apply (Permutation_in _ (Permutation_sym P)); now left).
        destruct Ia as [Ia|Ia]; [now symmetry|].
        destruct Ib as [Ib|Ib]; [exact Ib|].
        rewrite Forall_forall in Ha, Hb.
        apply Hanti; simpl; auto. }
      subst b. f_equal.
      apply IH; [|exact Hs'|now apply Permutation_cons_inv with a].
      intros x y Hx Hy. apply Hanti; now right.
Qed.

Lemma byName_tie (a b : Entry) :
  nameLe a b -> nameLe b a -> localeCompare (name a) (name b) = 0.
Proof.
  unfold nameLe, byName. intros H1 H2.
  pose proof (localeCompare_sym (name a) (name b)) as S.
  destruct (Z.sgn_spec (localeCompare (name a) (name b))) as [[? E]|[[? E]|[? E]]];
    destruct (Z.sgn_spec (localeCompare (name b) (name a))) as [[? F]|[[? F]|[? F]]];
    lia.
Qed.

(** X2.  The listing does not depend on the order in which [readdirSync]
    returns the children, as long as [localeCompare] ties no two different
    names of the directory. *)
Theorem listing_ignores_read_order :
  forall items items' dir,
    (forall d d',
       In d items -> In d' items ->
       localeCompare (Dirent.name d) (Dirent.name d') = 0 ->
       Dirent.name d = Dirent.name d') ->
    Permutation items items' ->
    withParent items dir = withParent items' dir.
Proof.
  intros items items' dir Hsep P.
  rewrite !withParent_eq. f_equal. f_equal.
  - apply sorted_Permutation_eq;
      [|apply sort_sorted|apply sort_sorted|].
    + intros a b Ha Hb Hab Hba.
      apply dirsOf_In in Ha. destruct Ha as (d & Hd & _ & ->).
      apply dirsOf_In in Hb. destruct Hb as (d' & Hd' & _ & ->).
      f_equal. apply Hsep; [exact Hd|exact Hd'|].
      apply (byName_tie _ _ Hab Hba).
    + unfold dirsOf.
      apply perm_trans with (map (fun d => mkEntry (Dirent.name d) true)
                                 (filter keepDir items));
        [apply sort_Permutation|].
      apply perm_trans with (map (fun d => mkEntry (Dirent.name d) true)
                                 (filter keepDir items'));
        [|apply Permutation_sym, sort_Permutation].
      now apply Permutation_map, filter_Permutation.
  - apply sorted_Permutation_eq;
      [|apply sort_sorted|apply sort_sorted|].
    + intros a b Ha Hb Hab Hba.
      apply filesOf_In in Ha. destruct Ha as (d & Hd & _ & ->).
      apply filesOf_In in Hb. destruct Hb as (d' & Hd' & _ & ->).
      f_equal. apply Hsep; [exact Hd|exact Hd'|].
      apply (byName_tie _ _ Hab Hba).
    + unfold filesOf.
      apply perm_trans with (map (fun d => mkEntry (Dirent.name d) false)
                                 (filter keepFile items));
        [apply sort_Permutation|].
      apply perm_trans with (map (fun d => mkEntry (Dirent.name d) false)
                                 (filter keepFile items'));
        [|apply Permutation_sym, sort_Permutation].
      now apply Permutation_map, filter_Permutation.
Qed.

(** ** [path.extname] on the name of a child *)

Lemma extnameStep_scanChar win i c s :
  Path.isPathSeparator win c = false ->
  Path.extnameStep win i c s = inr (scanChar i c s).
Proof.
  intros H. unfold Path.extnameStep, scanChar, isDot. rewrite H.
  destruct (Path.endp s =? -1); destruct (Ascii.eqb c Path.CHAR_DOT);
    cbn [Path.startDot Path.preDotState Path.endp];
    repeat match goal with |- context [if ?b then _ else _] => destruct b end;
    reflexivity.
Qed.

Lemma extnameLoop_app win l1 l2 s :
  noSeparator win (map snd l1) = true ->
  Path.extnameLoop win (l1 ++ l2) s
  = Path.extnameLoop win l2 (Path.extnameLoop win l1 s).
Proof.
  revert s. induction l1 as [|[i c] l1 IH]; intros s H; [reflexivity|].
  simpl in H. apply andb_prop in H. destruct H as [Hc Hl].
  apply negb_true_iff in Hc. simpl.
  rewrite (extnameStep_scanChar win i c s Hc). now apply IH.
Qed.

Lemma indexed_snd k t : map snd (Path.indexed k t) = t.
Proof. revert k. induction t as [|c t IH]; intros k; simpl; [|rewrite IH]; reflexivity. Qed.

Lemma extnameLoop_scan win k t s0 :
  noSeparator win t = true ->
  Path.extnameLoop win (rev (Path.indexed k t)) s0 = scan k t s0.
Proof.
  revert k. induction t as [|c t IH]; intros k H; [reflexivity|].
  simpl in H. apply andb_prop in H. destruct H as [Hc Ht].
  apply negb_true_iff in Hc. simpl.
  rewrite extnameLoop_app.
  - simpl. rewrite (IH (k + 1) Ht).
    now rewrite (extnameStep_scanChar win k c _ Hc).
  - unfold noSeparator. rewrite map_rev, indexed_snd, forallb_forall.
    intros x Hx. apply in_rev in Hx.
    unfold noSeparator in Ht. rewrite forallb_forall in Ht. now apply Ht.
Qed.

Lemma scan_spec k t :
  0 <= k -> t <> [] ->
  Path.endp (scan k t scan0) = k + Z.of_nat (List.length t)
  /\ Path.startPart (scan k t scan0) = 0
  /\ ((Path.startDot (scan k t scan0) = -1
       /\ Path.preDotState (scan k t scan0) = 0
       /\ noDot t = true)
      \/ exists a b,
          t = a ++ Path.CHAR_DOT :: b
          /\ noDot b = true
          /\ Path.startDot (scan k t scan0) = k + Z.of_nat (List.length a)
          /\ Path.preDotState (scan k t scan0) = headState a).
Proof.
  revert k. induction t as [|c t IH]; intros k Hk Hne; [now elim Hne|].
  clear Hne. destruct t as [|c' t].
  - clear IH. simpl. unfold scanChar. simpl. unfold noDot. simpl.
    destruct (isDot c) eqn:D; simpl.
    + split; [lia|]. split; [reflexivity|]. right. exists [], [].
      unfold isDot in D. apply Ascii.eqb_eq in D. subst c.
      repeat split. simpl. lia.
    + split; [lia|]. split; [reflexivity|]. left. repeat split.
  - remember (c' :: t) as t1 eqn:Et1.
    assert (Hne : t1 <> []) by (subst t1; discriminate).
    clear Et1 c' t.
    destruct (IH (k + 1)) as (He & Hp & Hd); [lia|exact Hne|].
    clear IH.
    change (scan k (c :: t1) scan0) with (scanChar k c (scan (k + 1) t1 scan0)).
    remember (scan (k + 1) t1 scan0) as s eqn:Es. clear Es.
    assert (Hlen : Z.of_nat (List.length (c :: t1)) = Z.of_nat (List.length t1) + 1)
      by (simpl List.length; lia).
    rewrite Hlen.
    assert (Hend : (Path.endp s =? -1) = false) by (apply Z.eqb_neq; lia).
    unfold scanChar. rewrite Hend.
    destruct Hd as [(Hsd & Hps & Hnd)|(a & b & Et & Hb & Hsd & Hps)].
    + rewrite Hsd. change (-1 =? -1) with true. cbn [negb].
      destruct (isDot c) eqn:D; cbn [Path.endp Path.startDot Path.startPart
                                     Path.preDotState Path.matchedSlash].
      * split; [lia|]. split; [exact Hp|]. right. exists [], t1.
        unfold isDot in D. apply Ascii.eqb_eq in D. subst c.
        repeat split; [exact Hnd|simpl; lia|exact Hps].
      * split; [lia|]. split; [exact Hp|]. left.
        repeat split; [exact Hsd|exact Hps|].
        unfold noDot in *. cbn [forallb]. rewrite D. exact Hnd.
    + assert (Hsd' : (Path.startDot s =? -1) = false) by (apply Z.eqb_neq; lia).
      rewrite Hsd'. cbn [negb].
      destruct (isDot c) eqn:D.
      * destruct (Path.preDotState s =? 1) eqn:Q;
          cbn [negb Path.endp Path.startDot Path.startPart
               Path.preDotState Path.matchedSlash].
        -- split; [lia|]. split; [exact Hp|]. right. exists (c :: a), b.
           repeat split; [simpl; now rewrite Et|exact Hb|simpl List.length; lia|].
           cbn [headState]. rewrite D. now apply Z.eqb_eq in Q.
        -- split; [lia|]. split; [exact Hp|]. right. exists (c :: a), b.
           repeat split; [simpl; now rewrite Et|exact Hb|simpl List.length; lia|].
           cbn [headState]. now rewrite D.
      * cbn [negb Path.endp Path.startDot Path.startPart
             Path.preDotState Path.matchedSlash].
        split; [lia|]. split; [exact Hp|]. right. exists (c :: a), b.
        repeat split; [simpl; now rewrite Et|exact Hb|simpl List.length; lia|].
        cbn [headState]. now rewrite D.
Qed.

Lemma chars_app (s1 s2 : string) :
  list_ascii_of_string (String.append s1 s2)
  = list_ascii_of_string s1 ++ list_ascii_of_string s2.
Proof. induction s1 as [|c s1 IH]; simpl; [|rewrite IH]; reflexivity. Qed.

Lemma string_of_chars_app (l1 l2 : list ascii) :
  string_of_list_ascii (l1 ++ l2)
  = String.append (string_of_list_ascii l1) (string_of_list_ascii l2).
Proof. induction l1 as [|c l1 IH]; simpl; [|rewrite IH]; reflexivity. Qed.

Lemma substring_all (l : list ascii) :
  substring 0 (List.length l) (string_of_list_ascii l) = string_of_list_ascii l.
Proof. induction l as [|c l IH]; simpl; [|rewrite IH]; reflexivity. Qed.

Lemma substring_suffix (la lb : list ascii) :
  substring (List.length la) (List.length lb) (string_of_list_ascii (la ++ lb))
  = string_of_list_ascii lb.
Proof. induction la as [|c la IH]; simpl; [apply substring_all|exact IH]. Qed.

Lemma extname_cases (win : bool) (n : string) :
  noSeparator win (list_ascii_of_string n) = true ->
  Path.extnameStart win (list_ascii_of_string n) = 0 ->
  (noDot (list_ascii_of_string n) = true /\ Path.extname win n = "")
  \/ exists a b,
      list_ascii_of_string n = a ++ Path.CHAR_DOT :: b
      /\ noDot b = true
      /\ Path.extname win n = extOf a b.
Proof.
  intros Hsep Hstart. unfold Path.extname. rewrite Hstart.
  change (skipn (Z.to_nat 0) ?l) with l.
  rewrite (extnameLoop_scan win 0 _ _ Hsep). fold scan0.
  destruct (list_ascii_of_string n) as [|c0 t0] eqn:En.
  { left. split; reflexivity. }
  rewrite <- En in *.
  destruct (scan_spec 0 (list_ascii_of_string n)) as (He & Hp & Hd);
    [lia|rewrite En; discriminate|].
  remember (scan 0 (list_ascii_of_string n) scan0) as s eqn:Es. clear Es.
  destruct Hd as [(Hsd & Hps & Hnd)|(a & b & Et & Hb & Hsd & Hps)].
  - left. split; [exact Hnd|]. now rewrite Hsd.
  - right. exists a, b. split; [exact Et|]. split; [exact Hb|].
    assert (L : Z.of_nat (List.length (list_ascii_of_string n))
                = Z.of_nat (List.length a) + 1 + Z.of_nat (List.length b)).
    { rewrite Et, length_app. simpl List.length. lia. }
    rewrite He, Hp, Hsd, Hps, L.
    replace (0 + Z.of_nat (List.length a) =? -1) with false
      by (symmetry; apply Z.eqb_neq; lia).
    replace (0 + (Z.of_nat (List.length a) + 1 + Z.of_nat (List.length b)) =? -1)
      with false by (symmetry; apply Z.eqb_neq; lia).
    cbn [orb].
    replace (Z.to_nat (0 + Z.of_nat (List.length a))) with (List.length a) by lia.
    replace (Z.to_nat (0 + (Z.of_nat (List.length a) + 1 + Z.of_nat (List.length b))
                       - (0 + Z.of_nat (List.length a))))
      with (List.length (Path.CHAR_DOT :: b)) by (simpl List.length; lia).
    rewrite <- (string_of_list_ascii_of_string n), Et, substring_suffix.
    unfold extOf. destruct a as [|x a']; [reflexivity|].
    cbn [headState]. destruct (isDot x) eqn:D.
    + change (1 =? 0) with false. change (1 =? 1) with true. cbn [orb andb].
      replace (0 + Z.of_nat (List.length (x :: a'))
               =? 0 + (Z.of_nat (List.length (x :: a')) + 1 + Z.of_nat (List.length b)) - 1)
        with (Z.of_nat (List.length b) =? 0).
      2:{ destruct (Z.of_nat (List.length b) =? 0) eqn:Q; symmetry.
          - apply Z.eqb_eq in Q. apply Z.eqb_eq. lia.
          - apply Z.eqb_neq in Q. apply Z.eqb_neq. lia. }
      replace (0 + Z.of_nat (List.length (x :: a')) =? 0 + 1)
        with (Z.of_nat (List.length (x :: a')) =? 1).
      2:{ f_equal. }
      now rewrite andb_comm.
    + change (-1 =? 0) with false. change (-1 =? 1) with false. reflexivity.
Qed.

Lemma noDot_app (a b : list ascii) :
  noDot (a ++ b) = noDot a && noDot b.
Proof. unfold noDot. apply forallb_app. Qed.

(** There is one way to cut a name at its last dot. *)
Lemma last_dot_unique (a a' b b' : list ascii) :
  a ++ Path.CHAR_DOT :: b = a' ++ Path.CHAR_DOT :: b' ->
  noDot b = true -> noDot b' = true -> a = a' /\ b = b'.
Proof.
  revert a'. induction a as [|x a IH]; intros [|y a'] E Hb Hb'.
  - injection E as E. now split.
  - injection E as _ E. rewrite E, noDot_app in Hb.
    apply andb_prop in Hb. destruct Hb as [_ Hb]. discriminate Hb.
  - injection E as _ E. rewrite <- E, noDot_app in Hb'.
    apply andb_prop in Hb'. destruct Hb' as [_ Hb']. discriminate Hb'.
  - injection E as -> E. destruct (IH a' E Hb Hb') as [-> ->]. now split.
Qed.

Lemma string_of_list_inj (l l' : list ascii) :
  string_of_list_ascii l = string_of_list_ascii l' -> l = l'.
Proof.
  intros H. rewrite <- (list_ascii_of_string_of_list_ascii l),
              <- (list_ascii_of_string_of_list_ascii l').
  now rewrite H.
Qed.

(** On a name without separator and without drive prefix [extname] is [ext],
    for [ext] a dot followed by characters that are no dots and not all
    missing, exactly when the name is [ext] after a stem that is not
    empty. *)
Lemma extname_is_suffix (win : bool) (n : string) (rest : list ascii) :
  noSeparator win (list_ascii_of_string n) = true ->
  Path.extnameStart win (list_ascii_of_string n) = 0 ->
  noDot rest = true -> rest <> [] ->
  (Path.extname win n = string_of_list_ascii (Path.CHAR_DOT :: rest)
   <-> exists stem,
        stem <> ""
        /\ n = String.append stem (string_of_list_ascii (Path.CHAR_DOT :: rest))).
Proof.
  intros Hsep Hstart Hrest Hne.
  destruct (extname_cases win n Hsep Hstart) as [[Hnd E]|(a & b & Et & Hb & E)].
  - rewrite E. split; [discriminate|].
    intros (stem & _ & ->). rewrite chars_app, noDot_app in Hnd.
    apply andb_prop in Hnd. destruct Hnd as [_ Hnd].
    rewrite list_ascii_of_string_of_list_ascii in Hnd. discriminate Hnd.
  - rewrite E. split.
    + intros X. unfold extOf in X. destruct a as [|x a']; [discriminate X|].
      destruct (isDot x && _ && _); [discriminate X|].
      apply string_of_list_inj in X. injection X as ->.
      exists (string_of_list_ascii (x :: a')). split; [discriminate|].
      rewrite <- (string_of_list_ascii_of_string n), Et.
      now rewrite string_of_chars_app.
    + intros (stem & Hs & ->).
      rewrite chars_app, list_ascii_of_string_of_list_ascii in Et.
      destruct (last_dot_unique _ _ _ _ Et Hrest Hb) as [<- <-].
      unfold extOf. destruct (list_ascii_of_string stem) as [|x a'] eqn:Es.
      * elim Hs. rewrite <- (string_of_list_ascii_of_string stem), Es. reflexivity.
      * destruct rest as [|r rest']; [now elim Hne|].
        simpl List.length. rewrite !andb_false_r. reflexivity.
Qed.

Lemma segment_noSeparator (n : string) :
  segment n = true -> noSeparator IS_WIN (list_ascii_of_string n) = true.
Proof.
  unfold segment. intros H.
  apply andb_prop in H. destruct H as [H _].
  apply andb_prop in H. destruct H as [H _].
  apply andb_prop in H. now destruct H as [_ H].
Qed.

(** X3.  Seen from the names: in what [getEntries] returns for a directory
    it can read, a child with a proper name, without drive prefix (there is
    none on POSIX), is listed as a file exactly when it is a regular file
    and its name is .ts or .js after a stem that is not empty.  So [a.ts],
    [.setup.ts] and [x.test.js] are listed, and [.ts], [ts], [a.ts.bak] and
    [a.TS] are not. *)
Theorem listed_files_by_suffix :
  forall w dir items n,
    readdirSync w dir = JS.Ok items ->
    segment n = true ->
    Path.extnameStart IS_WIN (list_ascii_of_string n) = 0 ->
    exists es,
      getEntries w dir = JS.Ok es
      /\ (In (mkEntry n false) es
          <-> (exists d, In d items /\ Dirent.kind d = Dirent.File
                        /\ Dirent.name d = n)
              /\ exists stem,
                  stem <> ""
                  /\ (n = String.append stem ".ts"
                      \/ n = String.append stem ".js")).
Proof.
  intros w dir items n R Hseg Hstart. exists (withParent items dir).
  split; [unfold getEntries; now rewrite R|].
  pose proof (segment_noSeparator n Hseg) as Hsep.
  pose proof (extname_is_suffix IS_WIN n (list_ascii_of_string "ts")
                Hsep Hstart eq_refl ltac:(discriminate)) as Hts.
  pose proof (extname_is_suffix IS_WIN n (list_ascii_of_string "js")
                Hsep Hstart eq_refl ltac:(discriminate)) as Hjs.
  change (string_of_list_ascii (Path.CHAR_DOT :: list_ascii_of_string "ts"))
    with ".ts" in Hts.
  change (string_of_list_ascii (Path.CHAR_DOT :: list_ascii_of_string "js"))
    with ".js" in Hjs.
  assert (X : In (path_extname n) EXTENSIONS
              <-> exists stem,
                  stem <> ""
                  /\ (n = String.append stem ".ts" \/ n = String.append stem ".js")).
  { unfold path_extname, EXTENSIONS. cbn [In]. split.
    - intros [E|[E|[]]]; symmetry in E.
      + apply Hts in E. destruct E as (stem & Hs & E). exists stem. auto.
      + apply Hjs in E. destruct E as (stem & Hs & E). exists stem. auto.
    - intros (stem & Hs & [E|E]).
      + left. symmetry. apply Hts. now exists stem.
      + right; left. symmetry. apply Hjs. now exists stem. }
  rewrite withParent_In, dirsOf_In, filesOf_In. split.
  - intros [[_ H]|[(d & _ & _ & H)|(d & Hin & Hk & H)]]; try discriminate H.
    injection H as ->.
    unfold keepFile, Dirent.isFile in Hk. apply andb_prop in Hk.
    destruct Hk as [Hf Hx]. apply includes_In in Hx. split.
    + exists d. split; [exact Hin|]. split; [|reflexivity].
      destruct (Dirent.kind d); try discriminate Hf. reflexivity.
    + now apply X.
  - intros [(d & Hin & Hf & <-) Hx]. right; right. exists d.
    split; [exact Hin|]. split; [|reflexivity].
    unfold keepFile, Dirent.isFile. rewrite Hf. cbn [andb].
    apply includes_In. now apply X.
Qed.

(** ** The frame *)

Lemma rows_unselected (sel : JS.num) (k : Z) (es : list Entry) :
  (forall i, sel = JS.Int i -> i < k \/ k + Z.of_nat (List.length es) <= i) ->
  rows sel k es = map (Row false) es.
Proof.
  revert k. induction es as [|e es IH]; intros k H; [reflexivity|].
  simpl. rewrite IH.
  - f_equal. destruct sel as [z|]; [|reflexivity].
    destruct (H z eq_refl) as [Hz|Hz].
    + destruct (k =? z) eqn:E; [apply Z.eqb_eq in E; lia|reflexivity].
    + simpl in Hz. destruct (k =? z) eqn:E; [apply Z.eqb_eq in E; lia|reflexivity].
  - intros i Hi. destruct (H i Hi) as [Hz|Hz]; simpl in Hz; lia.
Qed.

Lemma rows_selected (i k : Z) (es : list Entry) :
  k <= i < k + Z.of_nat (List.length es) ->
  exists before e after,
    es = before ++ e :: after
    /\ k + Z.of_nat (List.length before) = i
    /\ rows (JS.Int i) k es
       = map (Row false) before ++ Row true e :: map (Row false) after.
Proof.
  revert k. induction es as [|e es IH]; intros k H; [simpl in H; lia|].
  destruct (Z.eq_dec k i) as [->|Hne].
  - exists [], e, es. split; [reflexivity|]. split; [simpl; lia|].
    simpl. rewrite Z.eqb_refl. f_equal.
    apply rows_unselected. intros j Hj. injection Hj as <-. lia.
  - destruct (IH (k + 1)) as (before & e' & after & E & L & R).
    { simpl List.length in H. lia. }
    exists (e :: before), e', after. split; [now rewrite E|].
    split; [simpl List.length; lia|].
    simpl. rewrite R.
    destruct (k =? i) eqn:Q; [apply Z.eqb_eq in Q; lia|reflexivity].
Qed.

(** X5.  [render] clears the screen, prints the header of the directory,
    one row for each entry in the order of the listing, and the separator.
    When [selected] is an index of the listing exactly the row at that index
    carries the cursor; when it is not (an empty listing, -1, [NaN]) no row
    carries it. *)
Theorem render_marks_selection :
  forall dir sel es,
    (forall i,
       sel = JS.Int i -> 0 <= i < Z.of_nat (List.length es) ->
       exists before e after,
         es = before ++ e :: after
         /\ Z.of_nat (List.length before) = i
         /\ JS.index es sel = Some e
         /\ render dir sel es
            = [ClearScreen; Header dir]
                ++ map (Row false) before ++ [Row true e]
                ++ map (Row false) after ++ [Separator])
    /\ (JS.index es sel = None ->
        render dir sel es
        = [ClearScreen; Header dir] ++ map (Row false) es ++ [Separator]).
Proof.
  intros dir sel es. split.
  - intros i -> Hi.
    destruct (rows_selected i 0 es) as (before & e & after & E & L & R); [lia|].
    exists before, e, after. split; [exact E|]. split; [lia|]. split.
    + simpl. destruct (i <? 0) eqn:Q; [apply Z.ltb_lt in Q; lia|].
      rewrite E, nth_error_app2 by lia.
      replace (Z.to_nat i - List.length before)%nat with 0%nat by lia.
      reflexivity.
    + unfold render, clearScreen. rewrite R. simpl.
      now rewrite <- app_assoc.
  - intros H. unfold render, clearScreen. rewrite rows_unselected; [reflexivity|].
    intros i ->. simpl in H.
    destruct (i <? 0) eqn:Q; [apply Z.ltb_lt in Q; lia|].
    apply Z.ltb_ge in Q. apply nth_error_None in H. lia.
Qed.

(** ** Further properties of the launcher *)

(** X6.  [runFile] starts exactly one child, and it brackets the child the
    same way whether or not the child could be started: raw mode off and the
    input paused before it, the input resumed and raw mode back on after it.
    When the input is not a terminal raw mode is not touched at all. *)
Theorem runFile_brackets_child :
  forall w dir file,
    filter isChild (runFile w dir file) = [Child (spawnRequest dir file)]
    /\ filter isTerminalControl (runFile w dir file)
       = (if isTTY w then [SetRawMode false] else [])
           ++ [Pause; Child (spawnRequest dir file); Resume]
           ++ (if isTTY w then [SetRawMode true] else []).
Proof.
  intros w dir file. unfold runFile, rawMode, clearScreen.
  destruct (error (spawnSync w (spawnRequest dir file)));
    destruct (isTTY w); split; reflexivity.
Qed.

(** ** Further properties of the handler *)

Lemma rows_no_child (sel : JS.num) (k : Z) (es : list Entry) (r : SpawnRequest) :
  ~ In (Child r) (rows sel k es).
Proof.
  revert k. induction es as [|e es IH]; intros k; simpl; [tauto|].
  intros [H|H]; [discriminate H|now apply IH in H].
Qed.

Lemma render_no_child (dir : string) (sel : JS.num) (es : list Entry)
      (r : SpawnRequest) :
  ~ In (Child r) (render dir sel es).
Proof.
  unfold render, clearScreen. rewrite !in_app_iff. simpl.
  intros [[H|[]]|[[H|[]]|[H|[H|[]]]]]; try discriminate H.
  now apply rows_no_child in H.
Qed.

(** What a handler invocation that returns has written. *)
Lemma keypress_output (w : World) (key : option Key.t) (st st' : State)
      (out : list Output) :
  keypress w key st = (out, Running st') ->
  (out = [] /\ st' = st)
  \/ (waitingForKey st' = false
      /\ out = render (currentDir st') (selected st') (entries st'))
  \/ (waitingForKey st = false
      /\ exists k cur,
          key = Some k
          /\ Key.named k "return" = true
          /\ JS.index (entries st) (selected st) = Some cur
          /\ isDir cur = false
          /\ out = runFile w (currentDir st) (name cur)
          /\ st' = mkState (currentDir st) (selected st) true (entries st)).
Proof.
  unfold keypress. destruct key as [k|].
  2:{ intros H. injection H as <- <-. now left. }
  destruct (waitingForKey st) eqn:W.
  { destruct (getEntries w (currentDir st)) as [es|e]; [|discriminate].
    intros H. injection H as <- <-. right; left. split; reflexivity. }
  destruct (Key.named k "q" || (Key.ctrl k && Key.named k "c"));
    [discriminate|].
  destruct (Key.named k "r").
  { destruct (getEntries w (currentDir st)) as [es|e]; [|discriminate].
    intros H. injection H as <- <-. right; left. split; reflexivity. }
  destruct (Key.named k "up").
  { intros H. injection H as <- <-. right; left. split; reflexivity. }
  destruct (Key.named k "down").
  { intros H. injection H as <- <-. right; left. split; reflexivity. }
  destruct (Key.named k "return") eqn:K.
  2:{ intros H. injection H as <- <-. now left. }
  destruct (JS.index (entries st) (selected st)) as [cur|] eqn:I.
  2:{ intros H. injection H as <- <-. now left. }
  destruct (isDir cur) eqn:D.
  - destruct (getEntries w _) as [es|e]; [|discriminate].
    intros H. injection H as <- <-. right; left. split; reflexivity.
  - intros H. injection H as <- <-. right; right.
    split; [reflexivity|]. exists k, cur. repeat split; assumption.
Qed.

Lemma keypress_output_stopped (w : World) (key : option Key.t) (st : State)
      (out : list Output) :
  (forall c, keypress w key st = (out, Exited c) -> out = [ClearScreen])
  /\ (forall e, keypress w key st = (out, Uncaught e) -> out = []).
Proof.
  unfold keypress. destruct key as [k|]; [|split; discriminate].
  destruct (waitingForKey st).
  { destruct (getEntries w (currentDir st)); split; intros ? H;
      try discriminate H; now injection H as <-. }
  destruct (Key.named k "q" || (Key.ctrl k && Key.named k "c")).
  { split; intros ? H; try discriminate H. now injection H as <-. }
  destruct (Key.named k "r").
  { destruct (getEntries w (currentDir st)); split; intros ? H;
      try discriminate H; now injection H as <-. }
  destruct (Key.named k "up"); [split; discriminate|].
  destruct (Key.named k "down"); [split; discriminate|].
  destruct (Key.named k "return"); [|split; discriminate].
  destruct (JS.index (entries st) (selected st)) as [cur|]; [|split; discriminate].
  destruct (isDir cur); [|split; discriminate].
  destruct (getEntries w _); split; intros ? H;
    try discriminate H; now injection H as <-.
Qed.

(** X10.  What the handler writes always matches how it ends.  When it
    returns it has written nothing and changed nothing, or it has drawn the
    frame of the state it leaves behind, browsing, or it has run the file
    under the cursor and awaits the acknowledgment.  When it exits it has
    only cleared the screen, and when an exception escapes it has written
    nothing. *)
Theorem handler_output_matches_outcome :
  forall w key st out r,
    keypress w key st = (out, r) ->
    match r with
    | Running st' =>
      (out = [] /\ st' = st)
      \/ (waitingForKey st' = false
          /\ out = render (currentDir st') (selected st') (entries st'))
      \/ (waitingForKey st' = true
          /\ exists cur,
              JS.index (entries st) (selected st) = Some cur
              /\ out = runFile w (currentDir st) (name cur))
    | Exited c => out = [ClearScreen]
    | Uncaught e => out = []
    end.
Proof.
  intros w key st out [st'|c|e] H.
  - apply keypress_output in H.
    destruct H as [H|[H|(W & k & cur & _ & _ & I & _ & O & ->)]]; auto.
    right; right. split; [reflexivity|]. now exists cur.
  - now apply (proj1 (keypress_output_stopped w key st out) c).
  - now apply (proj2 (keypress_output_stopped w key st out) e).
Qed.

(** X8.  Whatever the state, a key press starts a child only when it is the
    return key, pressed while browsing, with a file under the cursor; the
    child is then the one [runFile] starts for that file in the current
    directory.  No other key, and no key that acknowledges an execution,
    starts anything. *)
Theorem child_only_on_return_over_file :
  forall w key st r,
    In (Child r) (fst (keypress w key st)) ->
    waitingForKey st = false
    /\ exists k cur,
        key = Some k
        /\ Key.named k "return" = true
        /\ JS.index (entries st) (selected st) = Some cur
        /\ isDir cur = false
        /\ r = spawnRequest (currentDir st) (name cur).
Proof.
  intros w key st r H.
  destruct (keypress w key st) as [out [st'|c|e]] eqn:E; simpl in H.
  - apply keypress_output in E.
    destruct E as [[-> _]|[[_ ->]|(W & k & cur & -> & K & I & D & -> & _)]].
    + destruct H.
    + now apply render_no_child in H.
    + split; [exact W|]. exists k, cur. repeat split; try assumption.
      assert (F : In (Child r) (filter isChild (runFile w (currentDir st) (name cur))))
        by (apply filter_In; now split).
      unfold runFile, rawMode, clearScreen in F.
      destruct (error _), (isTTY w); simpl in F;
        destruct F as [F|[]]; now injection F as <-.
  - rewrite (proj1 (keypress_output_stopped w key st out) c E) in H.
    destruct H as [H|[]]. discriminate H.
  - rewrite (proj2 (keypress_output_stopped w key st out) e E) in H.
    destruct H.
Qed.

(** A file entry of a listing has one of the two extensions. *)
Lemma file_is_script (items : list Dirent.t) (dir : string) (e : Entry) :
  In e (withParent items dir) -> isDir e = false ->
  In (path_extname (name e)) EXTENSIONS.
Proof.
  intros H D. apply withParent_In in H. destruct H as [[_ ->]|[H|H]].
  - discriminate D.
  - apply dirsOf_In in H. destruct H as (d & _ & _ & ->). discriminate D.
  - apply filesOf_In in H. destruct H as (d & _ & Hk & ->). cbn [name].
    unfold keepFile in Hk. apply andb_prop in Hk.
    exact (proj1 (includes_In _ _) (proj2 Hk)).
Qed.

Lemma step_onScript (w : World) (st st' : State) :
  listed st -> step w st st' ->
  (waitingForKey st = true -> onScript st) ->
  waitingForKey st' = true -> onScript st'.
Proof.
  intros (items & _ & E) Hstep IH.
  destruct Hstep as [ |? ? ?|? ? ?|?|?|? ? ? ? ? ? ?|? ? ? ? ? ? ?|cur W I D];
    simpl; try discriminate; [exact IH|].
  intros _. exists cur. simpl. split; [exact I|]. split; [exact D|].
  apply index_Some in I. destruct I as (i & _ & _ & Hin).
  rewrite E in Hin. now apply file_is_script with items (currentDir st).
Qed.

Lemma reachable_onScript (st : State) :
  reachable st -> waitingForKey st = true -> onScript st.
Proof.
  induction 1 as [w out st Hw Hm|w key out st st' Hw Hr IH Hk].
  - unfold main in Hm.
    destruct (getEntries w ROOT_DIR) as [es|e]; [|discriminate].
    destruct (Z.of_nat (List.length es) =? 0); [discriminate|].
    injection Hm as _ <-. discriminate.
  - apply step_onScript with w st; [|now apply keypress_step with key out|exact IH].
    now destruct (reachable_Inv st Hr).
Qed.

(** X9.  In the event loop only scripts of the listing are ever executed:
    a child started by a key press runs a file entry of the current listing
    whose extension is .ts or .js, so the branch of [runFile] for every
    extension other than .ts only ever receives .js files; and whenever an
    acknowledgment is awaited the cursor is on such an entry. *)
Theorem only_listed_scripts_run :
  forall st,
    reachable st ->
    (forall w key r,
       In (Child r) (fst (keypress w key st)) ->
       exists cur,
         In cur (entries st)
         /\ isDir cur = false
         /\ (path_extname (name cur) = ".ts" \/ path_extname (name cur) = ".js")
         /\ r = spawnRequest (currentDir st) (name cur))
    /\ (waitingForKey st = true -> onScript st).
Proof.
  intros st Hr. split; [|now apply reachable_onScript].
  intros w key r H.
  destruct (keypress w key st) as [out [st'|c|e]] eqn:E; simpl in H.
  - apply keypress_output in E.
    destruct E as [[-> _]|[[_ ->]|(W & k & cur & -> & K & I & D & -> & _)]].
    + destruct H.
    + now apply render_no_child in H.
    + exists cur.
      assert (Hin : In cur (entries st)).
      { apply index_Some in I. now destruct I as (i & _ & _ & Hin). }
      split; [exact Hin|]. split; [exact D|].
      destruct (reachable_Inv st Hr) as [_ (items & _ & L) _ _].
      rewrite L in Hin.
      pose proof (file_is_script _ _ _ Hin D) as X. simpl in X. split.
      * destruct X as [X|[X|[]]]; auto.
      * assert (F : In (Child r)
                     (filter isChild (runFile w (currentDir st) (name cur))))
          by (apply filter_In; now split).
        unfold runFile, rawMode, clearScreen in F.
        destruct (error _), (isTTY w); simpl in F;
          destruct F as [F|[]]; now injection F as <-.
  - rewrite (proj1 (keypress_output_stopped w key st out) c E) in H.
    destruct H as [H|[]]. discriminate H.
  - rewrite (proj2 (keypress_output_stopped w key st out) e E) in H.
    destruct H.
Qed.

Lemma upOf_empty (st : State) : entries st = [] -> upOf st = JS.NaN.
Proof. unfold upOf. intros ->. now destruct (selected st). Qed.

Lemma downOf_empty (st : State) : entries st = [] -> downOf st = JS.NaN.
Proof. unfold downOf. intros ->. now destruct (selected st). Qed.

Lemma validSelection_nonempty (st : State) : validSelection st -> entries st <> [].
Proof. intros (i & _ & Hi) E. rewrite E in Hi. simpl in Hi. lia. Qed.

(** X7.  In the event loop [selected] is an index of the listing, or the
    listing is empty, nothing is awaited and [selected] is 0 (after a reload
    or a change of directory), -1 (after an acknowledgment) or [NaN] (after
    an arrow key).  On an empty listing the arrow keys do make it [NaN], the
    remainder being taken by zero, and the return key does nothing. *)
Theorem selection_on_empty_listing :
  (forall st,
     reachable st ->
     validSelection st
     \/ (entries st = []
         /\ waitingForKey st = false
         /\ (selected st = JS.Int 0 \/ selected st = JS.Int (-1)
             \/ selected st = JS.NaN)))
  /\ (forall w key st,
       entries st = [] ->
       waitingForKey st = false ->
       Key.name key = Some "up" \/ Key.name key = Some "down" ->
       snd (keypress w (Some key) st)
       = Running (mkState (currentDir st) JS.NaN false []))
  /\ (forall w key st,
       entries st = [] ->
       waitingForKey st = false ->
       Key.name key = Some "return" ->
       keypress w (Some key) st = ([], Running st)).
Proof.
  split; [|split].
  - induction 1 as [w out st Hw Hm|w key out st st' Hw Hr IH Hk].
    + left. destruct (main_Inv w out st Hw Hm) as [_ _ Hsel _].
      apply Hsel. unfold main in Hm.
      destruct (getEntries w ROOT_DIR) as [es|e]; [|discriminate].
      destruct (Z.of_nat (List.length es) =? 0) eqn:L; [discriminate|].
      injection Hm as _ <-. simpl. apply Z.eqb_neq in L.
      intros ->. now apply L.
    + pose proof (reachable_Inv st Hr) as [_ _ Hsel Hwait].
      pose proof (step_Inv w st st' Hw (reachable_Inv st Hr)
                    (keypress_step w key st st' out Hk)) as [_ _ Hsel' _].
      assert (Dec : entries st' = [] \/ entries st' <> [])
        by (destruct (entries st'); [now left|right; discriminate]).
      destruct Dec as [E'|NE]; [|left; now apply Hsel'].
      clear Hsel'. right.
      apply keypress_step in Hk.
      destruct Hk as [ |items W R|items W R|W|W|cur items W I D N R
                     |cur items W I D N R|cur W I D]; simpl in *.
      * destruct IH as [V|IH]; [|exact IH].
        now apply validSelection_nonempty in V.
      * destruct (Hsel (Hwait W)) as (i & Es & Hi).
        rewrite Es, E'. split; [reflexivity|]. split; [reflexivity|].
        right; left. unfold clamp. simpl.
        destruct (0 <=? i) eqn:Q; [reflexivity|apply Z.leb_gt in Q; lia].
      * split; [exact E'|]. split; [reflexivity|now left].
      * split; [exact E'|]. split; [reflexivity|].
        right; right. now apply upOf_empty.
      * split; [exact E'|]. split; [reflexivity|].
        right; right. now apply downOf_empty.
      * split; [exact E'|]. split; [reflexivity|now left].
      * split; [exact E'|]. split; [reflexivity|now left].
      * apply index_Some in I. destruct I as (i & _ & Hi & _).
        rewrite E' in Hi. simpl in Hi. lia.
  - intros w key st E W [K|K].
    + rewrite (keypress_up w key st W K), (upOf_empty st E), E. reflexivity.
    + rewrite (keypress_down w key st W K), (downOf_empty st E), E. reflexivity.
  - intros w key st E W K. unfold keypress.
    rewrite W, !(named_of key "return" K), E.
    cbn [String.eqb Ascii.eqb Bool.eqb andb orb]. rewrite andb_false_r.
    now destruct (selected st) as [z|]; [simpl; destruct (z <? 0), (Z.to_nat z)|].
Qed.

(** X11.  Into a directory and back.  After the return key has opened a
    child directory the cursor is on the parent entry, so pressing the
    return key again, whatever else the directory holds, leads back to the
    directory one came from, listed anew with the cursor on its first
    entry. *)
Theorem enter_then_return_goes_back :
  forall st w1 w2 k1 k2 cur items1 items2,
    reachable st ->
    waitingForKey st = false ->
    Key.name k1 = Some "return" ->
    Key.name k2 = Some "return" ->
    JS.index (entries st) (selected st) = Some cur ->
    isDir cur = true ->
    name cur <> ".." ->
    let child := path_join (currentDir st) (name cur) in
    path_resolve child <> path_resolve ROOT_DIR ->
    readdirSync w1 child = JS.Ok items1 ->
    readdirSync w2 (currentDir st) = JS.Ok items2 ->
    exists st1,
      snd (keypress w1 (Some k1) st) = Running st1
      /\ currentDir st1 = child
      /\ JS.index (entries st1) (selected st1) = Some parentEntry
      /\ snd (keypress w2 (Some k2) st1)
         = Running (mkState (currentDir st) (JS.Int 0) false
                            (withParent items2 (currentDir st))).
Proof.
  intros st w1 w2 k1 k2 cur items1 items2 Hr W K1 K2 I D N child Hc R1 R2.
  destruct (reachable_Inv st Hr) as [(names & Hs & Ed) (items0 & Hs0 & El) _ _].
  assert (Hseg : segment (name cur) = true).
  { apply index_Some in I. destruct I as (i & _ & _ & Hin).
    rewrite El in Hin. now apply directory_is_child with items0 (currentDir st). }
  assert (Hback : path_dirname child = currentDir st).
  { unfold child. rewrite Ed. now apply path_dirname_join. }
  exists (mkState child (JS.Int 0) false (withParent items1 child)).
  assert (E1 : keypress w1 (Some k1) st
               = (render child (JS.Int 0) (withParent items1 child),
                  Running (mkState child (JS.Int 0) false (withParent items1 child)))).
  { rewrite (keypress_return w1 k1 st cur W K1 I), D.
    apply String.eqb_neq in N. rewrite N. fold child. cbv zeta.
    unfold getEntries. now rewrite R1. }
  assert (P : withParent items1 child
              = parentEntry :: dirsOf items1 ++ filesOf items1).
  { unfold withParent. apply notAtRoot_true in Hc. now rewrite Hc. }
  split; [now rewrite E1|]. split; [reflexivity|]. split.
  - simpl. now rewrite P.
  - rewrite (keypress_return w2 k2
               (mkState child (JS.Int 0) false (withParent items1 child))
               parentEntry eq_refl K2)
      by (simpl; now rewrite P).
    simpl. rewrite Hback. unfold getEntries. now rewrite R2.
Qed.

(** ** Startup and whole sessions *)

Lemma notAtRoot_root : notAtRoot ROOT_DIR = false.
Proof. unfold notAtRoot. now rewrite String.eqb_refl. Qed.

(** X4.  [main] ends in one of three ways.  The root cannot be read: the
    exception escapes and nothing is written.  The root holds no directory
    and no script to list: one message is written and the process exits with
    code 0, without reading a key.  Otherwise the event loop starts, browsing
    the root with the cursor on the first entry of a listing that is not
    empty and never holds the parent entry; raw mode is switched on only for
    a terminal. *)
Theorem main_outcomes :
  forall w out r,
    main w = (out, r) ->
    match r with
    | Uncaught e => readdirSync w ROOT_DIR = JS.Throw e /\ out = []
    | Exited c =>
      c = 0
      /\ (exists items,
            readdirSync w ROOT_DIR = JS.Ok items
            /\ filter keepDir items = [] /\ filter keepFile items = [])
      /\ out = [Log (String.append "No se encontraron archivos .ts / .js en: "
                                    ROOT_DIR)]
    | Running st =>
      (exists items,
         readdirSync w ROOT_DIR = JS.Ok items
         /\ st = mkState ROOT_DIR (JS.Int 0) false (dirsOf items ++ filesOf items))
      /\ entries st <> []
      /\ ~ In parentEntry (entries st)
      /\ out = [EmitKeypressEvents]
                 ++ (if isTTY w then [SetRawMode true] else [])
                 ++ render ROOT_DIR (JS.Int 0) (entries st)
    end.
Proof.
  intros w out r. unfold main, getEntries.
  destruct (readdirSync w ROOT_DIR) as [items|e].
  2:{ intros H. injection H as <- <-. now split. }
  assert (P : withParent items ROOT_DIR = dirsOf items ++ filesOf items)
    by (unfold withParent; now rewrite notAtRoot_root).
  destruct (Z.of_nat (List.length (withParent items ROOT_DIR)) =? 0) eqn:L;
    intros H; injection H as <- <-.
  - split; [reflexivity|]. split; [|reflexivity].
    exists items. split; [reflexivity|].
    apply Z.eqb_eq in L. rewrite P, length_app in L.
    unfold dirsOf, filesOf in L. rewrite !sort_length, !length_map in L.
    split; apply length_zero_iff_nil; lia.
  - apply Z.eqb_neq in L. split; [|split; [|split]].
    + exists items. split; [reflexivity|]. now rewrite P.
    + simpl. intros E. rewrite E in L. now apply L.
    + simpl. rewrite P, in_app_iff. intros [H|H].
      * apply dirsOf_In in H. destruct H as (d & _ & Hk & E).
        injection E as E. unfold keepDir in Hk. rewrite <- E in Hk.
        now rewrite andb_false_r in Hk.
      * apply filesOf_In in H. destruct H as (d & _ & _ & E). discriminate E.
    + reflexivity.
Qed.

Lemma loop_Exited (events : list (World * option Key.t)) (st : State) (c : Z) :
  snd (loop events st) = Exited c -> c = 0.
Proof.
  revert st. induction events as [|[w key] rest IH]; intros st; simpl;
    [discriminate|].
  destruct (keypress w key st) as [out [st'|c'|e]] eqn:E.
  - specialize (IH st'). destruct (loop rest st') as [out' r]. exact IH.
  - simpl. intros H. injection H as <-.
    apply (keypress_Exited w key st c'). now rewrite E.
  - discriminate.
Qed.

Lemma keypress_Uncaught (w : World) (key : option Key.t) (st : State)
      (e : Exception) :
  snd (keypress w key st) = Uncaught e ->
  exists dir, readdirSync w dir = JS.Throw e.
Proof.
  unfold keypress. destruct key as [k|]; [|discriminate].
  assert (G : forall dir (out : list Entry -> list Output * Outcome),
             snd (match getEntries w dir with
                  | JS.Ok es => out es
                  | JS.Throw x => ([], Uncaught x)
                  end) = Uncaught e ->
             (forall es, snd (out es) <> Uncaught e) ->
             exists dir', readdirSync w dir' = JS.Throw e).
  { intros dir out H Hout. unfold getEntries in H.
    destruct (readdirSync w dir) as [items|x] eqn:R.
    - now apply Hout in H.
    - simpl in H. injection H as ->. now exists dir. }
  destruct (waitingForKey st).
  { intros H. apply G in H; [exact H|discriminate]. }
  destruct (Key.named k "q" || (Key.ctrl k && Key.named k "c")); [discriminate|].
  destruct (Key.named k "r").
  { intros H. apply G in H; [exact H|discriminate]. }
  destruct (Key.named k "up"); [discriminate|].
  destruct (Key.named k "down"); [discriminate|].
  destruct (Key.named k "return"); [|discriminate].
  destruct (JS.index (entries st) (selected st)) as [cur|]; [|discriminate].
  destruct (isDir cur); [|discriminate].
  intros H. apply G in H; [exact H|discriminate].
Qed.

Lemma loop_Uncaught (events : list (World * option Key.t)) (st : State)
      (e : Exception) :
  snd (loop events st) = Uncaught e ->
  exists w dir, In w (map fst events) /\ readdirSync w dir = JS.Throw e.
Proof.
  revert st. induction events as [|[w key] rest IH]; intros st; simpl;
    [discriminate|].
  destruct (keypress w key st) as [out [st'|c|x]] eqn:E.
  - specialize (IH st'). destruct (loop rest st') as [out' r]. intros H.
    destruct (IH H) as (w' & dir & Hin & R). exists w', dir. auto.
  - discriminate.
  - simpl. intros H. injection H as ->.
    destruct (keypress_Uncaught w key st e) as [dir R]; [now rewrite E|].
    exists w, dir. auto.
Qed.

(** X12.  A session, that is [main] followed by any key presses, is over in
    two ways only.  Either [process.exit] was called, and then with code 0,
    whatever the exit statuses of the children were; or an exception went
    uncaught, and then it is one [readdirSync] threw in the world of that
    moment. *)
Theorem session_endings :
  forall w0 events,
    match snd (session w0 events) with
    | Running _ => True
    | Exited c => c = 0
    | Uncaught e =>
      exists w dir,
        In w (w0 :: map fst events) /\ readdirSync w dir = JS.Throw e
    end.
Proof.
  intros w0 events.
  destruct (snd (session w0 events)) as [st|c|e] eqn:S; [exact I| |];
    revert S; unfold session;
    destruct (main w0) as [out [st|c'|e']] eqn:M; try discriminate.
  - pose proof (loop_Exited events st c) as L.
    destruct (loop events st) as [out' r]. exact L.
  - simpl. intros H. injection H as <-. unfold main in M.
    destruct (getEntries w0 ROOT_DIR) as [es|x]; [|discriminate].
    destruct (Z.of_nat (List.length es) =? 0); [|discriminate].
    now injection M as _ <-.
  - pose proof (loop_Uncaught events st e) as L.
    destruct (loop events st) as [out' r]. intros H.
    destruct (L H) as (w & dir & Hin & R). exists w, dir. simpl. auto.
  - simpl. intros H. injection H as <-. unfold main, getEntries in M.
    destruct (readdirSync w0 ROOT_DIR) as [items|x] eqn:R.
    + destruct (Z.of_nat (List.length (withParent items ROOT_DIR)) =? 0);
        discriminate.
    + injection M as _ <-. exists w0, ROOT_DIR. simpl. auto.
Qed.

Lemma loop_reachable (events : list (World * option Key.t)) (st st' : State) :
  Forall (fun ev => wfWorld (fst ev)) events ->
  reachable st ->
  snd (loop events st) = Running st' -> reachable st'.
Proof.
  intros Hw. revert st. induction Hw as [|[w key] rest Hw _ IH]; intros st Hr; simpl.
  - intros H. now injection H as <-.
  - destruct (keypress w key st) as [out [st1|c|e]] eqn:E; try discriminate.
    specialize (IH st1 (reach_keypress w key out st st1 Hw Hr E)).
    destruct (loop rest st1) as [out' r]. exact IH.
Qed.

(** X13.  As long as a session goes on, what it shows is a listing of the
    directory it is in: [entries] is what [getEntries] made of some read of
    [currentDir], which lies at or below the root; and an acknowledgment is
    only awaited with the cursor on a script of that listing. *)
Theorem session_shows_current_directory :
  forall w0 events st,
    wfWorld w0 ->
    Forall (fun ev => wfWorld (fst ev)) events ->
    snd (session w0 events) = Running st ->
    descends (currentDir st)
    /\ (exists items, entries st = withParent items (currentDir st))
    /\ (waitingForKey st = true -> onScript st).
Proof.
  intros w0 events st Hw0 Hw. unfold session.
  destruct (main w0) as [out [st0|c|e]] eqn:M; try discriminate.
  pose proof (loop_reachable events st0 st Hw (reach_main w0 out st0 Hw0 M)) as L.
  destruct (loop events st0) as [out' r]. simpl. intros H.
  specialize (L H).
  destruct (reachable_Inv st L) as [Hd (items & _ & El) _ _].
  split; [exact Hd|]. split; [now exists items|].
  now apply reachable_onScript.
Qed.

End Runner.

(** ** [path.extname] on the examples of Node's documentation *)

Example extname_index_html : Path.extname false "index.html" = ".html".
Proof. reflexivity. Qed.

Example extname_two_dots : Path.extname false "index.coffee.md" = ".md".
Proof. reflexivity. Qed.

Example extname_trailing_dot : Path.extname false "index." = ".".
Proof. reflexivity. Qed.

Example extname_none : Path.extname false "index" = "".
Proof. reflexivity. Qed.

Example extname_dotfile : Path.extname false ".index" = "".
Proof. reflexivity. Qed.

Example extname_dotfile_md : Path.extname false ".index.md" = ".md".
Proof. reflexivity. Qed.

Example extname_dotdot : Path.extname false ".." = "".
Proof. reflexivity. Qed.

Example extname_in_directory : Path.extname false "/a.b/c" = "".
Proof. reflexivity. Qed.

Example extname_win32_drive : Path.extname true "C:.ts" = "".
Proof. reflexivity. Qed.


(** ** The POSIX instance satisfies the assumptions *)

Abbreviation posix_withParent :=
  (withParent Model.ROOT_DIR false Model.resolve Model.compare).
Abbreviation posix_getEntries :=
  (getEntries Model.ROOT_DIR false Model.resolve Model.compare).
Abbreviation posix_main :=
  (main Model.ROOT_DIR false Model.resolve Model.compare).
Abbreviation posix_keypress :=
  (keypress Model.ROOT_DIR false Model.env Model.resolve Model.join
            Model.dirname Model.compare).
Abbreviation posix_reachable :=
  (reachable Model.ROOT_DIR false Model.env Model.resolve Model.join
             Model.dirname Model.compare).
Abbreviation posix_descends := (descends Model.ROOT_DIR false Model.join).
Abbreviation posix_spawnRequest :=
  (spawnRequest false Model.env Model.resolve Model.join Model.dirname).

Lemma Model_compare_sym (a b : string) :
  Z.sgn (Model.compare b a) = - Z.sgn (Model.compare a b).
Proof.
  unfold Model.compare. rewrite (String.compare_antisym b a).
  destruct (String.compare a b); reflexivity.
Qed.

Lemma Model_compare_le (a b : string) :
  Model.compare a b <= 0 <-> a = b \/ String_as_OT.lt a b.
Proof.
  unfold Model.compare.
  pose proof (String_as_OT.cmp_eq a b) as E.
  pose proof (String_as_OT.cmp_lt a b) as L.
  unfold String_as_OT.cmp in E, L.
  destruct (String.compare a b); split; intros H.
  - left. now apply E.
  - lia.
  - right. now apply L.
  - lia.
  - lia.
  - destruct H as [H|H]; [apply E in H|apply L in H]; discriminate H.
Qed.

Lemma Model_compare_trans (a b c : string) :
  Model.compare a b <= 0 -> Model.compare b c <= 0 -> Model.compare a c <= 0.
Proof.
  rewrite !Model_compare_le. intros [->|H1] [->|H2]; auto.
  right. now apply String_as_OT.lt_trans with b.
Qed.

Lemma Model_segment_hasSlash (n : string) :
  segment false n = true -> Model.hasSlash n = false.
Proof.
  unfold segment. intros H.
  apply andb_prop in H. destruct H as [H _].
  apply andb_prop in H. destruct H as [H _].
  apply andb_prop in H. destruct H as [_ H].
  induction n as [|c n IH]; [reflexivity|].
  simpl in H. apply andb_prop in H. destruct H as [Hc Hn].
  simpl. rewrite (IH Hn).
  unfold Path.isPathSeparator, Path.CHAR_FORWARD_SLASH in Hc. simpl in Hc.
  rewrite orb_false_r in Hc. apply negb_true_iff in Hc.
  now rewrite Hc.
Qed.

Lemma Model_hasSlash_join (p n : string) : Model.hasSlash (Model.join p n) = true.
Proof.
  unfold Model.join. induction p as [|c p IH]; simpl.
  - reflexivity.
  - rewrite IH. apply orb_true_r.
Qed.

Lemma Model_dirname_of_join (p n : string) :
  Model.hasSlash n = false -> Model.dirname (Model.join p n) = p.
Proof.
  intros H. induction p as [|c p IH].
  - unfold Model.join. simpl. now rewrite H.
  - change (Model.join (String c p) n) with (String c (Model.join p n)).
    simpl. now rewrite Model_hasSlash_join, IH.
Qed.

Lemma Model_dirname_join (names : list string) (n : string) :
  segments false names -> segment false n = true ->
  Model.dirname (Model.join (under Model.ROOT_DIR Model.join names) n)
  = under Model.ROOT_DIR Model.join names.
Proof.
  intros _ H. apply Model_dirname_of_join. now apply Model_segment_hasSlash.
Qed.

Lemma Model_tree_wf : wfWorld false (mkWorld Model.tree (Model.exits 0) true).
Proof.
  intros dir items. simpl. unfold Model.tree.
  destruct (String.eqb dir "/tmp/proj").
  { intros H. injection H as <-. repeat constructor. }
  destruct (String.eqb dir "/tmp/proj/sub").
  { intros H. injection H as <-. repeat constructor. }
  discriminate.
Qed.

Lemma Model_atRoot_reachable : posix_reachable Model.atRoot.
Proof.
  apply reach_main with Model.world (fst (posix_main Model.world)).
  - exact Model_tree_wf.
  - reflexivity.
Qed.

Lemma Model_inSub_reachable : posix_reachable Model.inSub.
Proof.
  apply reach_keypress
    with Model.world (Some (Model.key "return"))
         (fst (posix_keypress Model.world (Some (Model.key "return")) Model.atRoot))
         Model.atRoot.
  - exact Model_tree_wf.
  - exact Model_atRoot_reachable.
  - reflexivity.
Qed.

Lemma Model_onFile_reachable : posix_reachable Model.onFile.
Proof.
  apply reach_keypress
    with Model.world (Some (Model.key "down"))
         (fst (posix_keypress Model.world (Some (Model.key "down")) Model.atRoot))
         Model.atRoot.
  - exact Model_tree_wf.
  - exact Model_atRoot_reachable.
  - reflexivity.
Qed.

Lemma Model_awaiting_reachable : posix_reachable Model.awaiting.
Proof.
  apply reach_keypress
    with Model.world (Some (Model.key "return"))
         (fst (posix_keypress Model.world (Some (Model.key "return")) Model.onFile))
         Model.onFile.
  - exact Model_tree_wf.
  - exact Model_onFile_reachable.
  - reflexivity.
Qed.

(** ** The walk of the specification through [/tmp/proj] *)

Example walk_start :
  snd (posix_main Model.world) = Running Model.atRoot.
Proof. reflexivity. Qed.

Example walk_enter_sub :
  snd (posix_keypress Model.world (Some (Model.key "return")) Model.atRoot)
  = Running Model.inSub.
Proof. reflexivity. Qed.

Example walk_back_to_root :
  snd (posix_keypress Model.world (Some (Model.key "return")) Model.inSub)
  = Running Model.atRoot.
Proof. reflexivity. Qed.

Example walk_run_file :
  posix_keypress Model.world (Some (Model.key "return")) Model.onFile
  = ([ClearScreen; Log "Ejecutando: a.ts"; Separator; SetRawMode false; Pause;
      Child (mkSpawn "npx" ["tsx"; "/tmp/proj/a.ts"] StdioInherit false
                     Model.env "/tmp/proj");
      Resume; SetRawMode true; Separator;
      Log "Presiona cualquier tecla para volver..."],
     Running Model.awaiting).
Proof. reflexivity. Qed.

Example walk_windows_command :
  (cmd (spawnRequest true Model.env Model.resolve Model.join Model.dirname
                     "/tmp/proj" "a.ts"),
   args (spawnRequest true Model.env Model.resolve Model.join Model.dirname
                      "/tmp/proj/sub" "b.js"))
  = ("cmd", ["/c"; "node"; "/tmp/proj/sub/b.js"]).
Proof. reflexivity. Qed.

(** ** The properties on the POSIX instance *)



(** [.git] and [README.md] are not listed. *)
Lemma hidden_and_foreign_excluded_witness :
  ~ In (mkEntry ".git" true)
       (posix_withParent
          [Dirent.mk "README.md" Dirent.File; Dirent.mk ".git" Dirent.Directory]
          "/tmp/proj")
  /\ ~ In (mkEntry "README.md" false)
         (posix_withParent
            [Dirent.mk "README.md" Dirent.File; Dirent.mk ".git" Dirent.Directory]
            "/tmp/proj").
Proof.
  destruct (hidden_and_foreign_excluded Model.ROOT_DIR false Model.resolve
              Model.compare
              [Dirent.mk "README.md" Dirent.File; Dirent.mk ".git" Dirent.Directory]
              "/tmp/proj") as (D & F & _).
  split.
  - apply (D (Dirent.mk ".git" Dirent.Directory) eq_refl eq_refl).
    discriminate.
  - apply (F (Dirent.mk "README.md" Dirent.File) eq_refl).
    vm_compute. intros [H|[H|H]]; try discriminate H. exact H.
Defined.

(** Of the directories [.git] and [.hooks.ts] and the files [.setup.ts] and
    [.ts], only the file [.setup.ts] is listed. *)
Lemma hidden_marker_spares_files_witness :
  exists es,
    posix_getEntries Model.worldDotted "/tmp/proj" = JS.Ok es
    /\ In (mkEntry ".setup.ts" false) es
    /\ ~ In (mkEntry ".git" true) es
    /\ ~ In (mkEntry ".hooks.ts" true) es
    /\ ~ In (mkEntry ".ts" false) es.
Proof.
  destruct (hidden_marker_spares_files Model.ROOT_DIR false Model.resolve
              Model.compare) as [L _].
  destruct (L Model.worldDotted "/tmp/proj" _ eq_refl)
    as (es & G & _ & D & S & _ & T & _).
  exists es. split; [exact G|]. split; [|split; [|split]].
  - apply S. simpl. auto.
  - apply (D (Dirent.mk ".git" Dirent.Directory) eq_refl eq_refl).
    discriminate.
  - apply (D (Dirent.mk ".hooks.ts" Dirent.Directory) eq_refl eq_refl).
    discriminate.
  - exact T.
Defined.

(** With two entries, up from the first one selects the second one and down
    from the second one selects the first one. *)
Lemma selection_wraps_around_witness :
  snd (posix_keypress Model.world (Some (Model.key "up")) Model.atRoot)
  = Running (mkState "/tmp/proj" (JS.Int 1) false Model.rootEntries)
  /\ snd (posix_keypress Model.world (Some (Model.key "down")) Model.onFile)
     = Running (mkState "/tmp/proj" (JS.Int 0) false Model.rootEntries)
  /\ validSelection Model.inSub.
Proof.
  destruct (selection_wraps_around Model.ROOT_DIR false Model.env Model.resolve
              Model.join Model.dirname Model.compare Model_dirname_join)
    as [M V].
  split; [|split].
  - destruct (M Model.world (Model.key "up") Model.atRoot 0
                eq_refl ltac:(simpl; lia) eq_refl ltac:(simpl; lia))
      as [U _].
    exact (proj1 (U eq_refl)).
  - destruct (M Model.world (Model.key "down") Model.onFile 1
                eq_refl ltac:(simpl; lia) eq_refl ltac:(simpl; lia))
      as [_ D].
    exact (proj1 (D eq_refl)).
  - apply (V Model.inSub Model_inSub_reachable). simpl. lia.
Defined.

(** [r] on the second entry selects the first one; acknowledging a run
    after [a.ts] has gone leaves the selection on the last entry left;
    opening [sub] selects its first entry. *)
Lemma reload_resets_and_ack_clamps_witness :
  snd (posix_keypress Model.world (Some (Model.key "r")) Model.onFile)
  = Running Model.atRoot
  /\ snd (posix_keypress Model.worldPruned (Some (Model.key "x")) Model.awaiting)
     = Running (mkState "/tmp/proj" (JS.Int 0) false [mkEntry "sub" true])
  /\ snd (posix_keypress Model.world (Some (Model.key "return")) Model.atRoot)
     = Running Model.inSub.
Proof.
  destruct (reload_resets_and_ack_clamps Model.ROOT_DIR false Model.env
              Model.resolve Model.join Model.dirname Model.compare)
    as (R & A & T).
  split; [|split].
  - exact (R Model.world (Model.key "r") Model.onFile _ eq_refl eq_refl eq_refl).
  - exact (A Model.worldPruned (Model.key "x") Model.awaiting _ 1
             eq_refl eq_refl eq_refl).
  - exact (T Model.world (Model.key "return") Model.atRoot (mkEntry "sub" true) _
             eq_refl eq_refl eq_refl eq_refl eq_refl).
Defined.

(** [q] and ctrl+c acknowledge a run like any other key; after the
    directory has been removed they end the handler with the exception;
    while browsing they exit. *)
Lemma acknowledgment_never_quits_witness :
  snd (posix_keypress Model.world (Some (Model.key "q")) Model.awaiting)
  = Running Model.onFile
  /\ snd (posix_keypress Model.world (Some Model.ctrlC) Model.awaiting)
     = Running Model.onFile
  /\ posix_keypress Model.worldRemoved (Some (Model.key "q")) Model.awaiting
     = ([], Uncaught (FilesystemError "ENOENT" "/tmp/proj"))
  /\ snd (posix_keypress Model.world (Some Model.ctrlC) Model.onFile) = Exited 0.
Proof.
  destruct (acknowledgment_never_quits Model.ROOT_DIR false Model.env
              Model.resolve Model.join Model.dirname Model.compare)
    as (A & _ & Q).
  split; [|split; [|split]].
  - destruct (A Model.world (Model.key "q") Model.awaiting eq_refl)
      as (_ & B & _).
    exact (proj2 (B _ eq_refl)).
  - destruct (A Model.world Model.ctrlC Model.awaiting eq_refl)
      as (_ & B & _).
    exact (proj2 (B _ eq_refl)).
  - destruct (A Model.worldRemoved (Model.key "q") Model.awaiting eq_refl)
      as (_ & _ & U).
    exact (proj1 (U _ eq_refl)).
  - exact (Q Model.world Model.ctrlC Model.onFile eq_refl eq_refl).
Defined.

(** C9 as stated fails: the event loop reaches the state that awaits the
    acknowledgment of a run of [a.ts]; when the directory has been removed
    meanwhile, [q] and ctrl+c pressed there end the process, by the
    exception that nothing catches. *)
Lemma acknowledgment_can_end_the_process :
  posix_reachable Model.awaiting
  /\ waitingForKey Model.awaiting = true
  /\ terminated (posix_keypress Model.worldRemoved (Some (Model.key "q"))
                                Model.awaiting)
  /\ terminated (posix_keypress Model.worldRemoved (Some Model.ctrlC)
                                Model.awaiting)
  /\ posix_keypress Model.worldRemoved (Some Model.ctrlC) Model.awaiting
     = ([], Uncaught (FilesystemError "ENOENT" "/tmp/proj")).
Proof.
  split; [exact Model_awaiting_reachable|].
  split; [reflexivity|]. split; [exact I|]. split; [exact I|reflexivity].
Qed.

(** [a.ts] is run by [npx tsx] in [/tmp/proj]. *)
Lemma interpreter_command_witness :
  (cmd (posix_spawnRequest "/tmp/proj" "a.ts"),
   args (posix_spawnRequest "/tmp/proj" "a.ts"))
  = ("npx", ["tsx"; "/tmp/proj/a.ts"])
  /\ cwd (posix_spawnRequest "/tmp/proj" "a.ts") = "/tmp/proj"
  /\ stdio (posix_spawnRequest "/tmp/proj" "a.ts") = StdioInherit
  /\ env (posix_spawnRequest "/tmp/proj" "a.ts") = Model.env.
Proof.
  destruct (interpreter_command false Model.env Model.resolve Model.join
              Model.dirname Model.world "/tmp/proj" "a.ts")
    as (_ & T & _ & C & S & _ & E & _).
  split; [|split; [|split]].
  - exact (T eq_refl).
  - exact C.
  - exact S.
  - exact E.
Defined.

(** Without an interpreter the error is written and the acknowledgment is
    awaited; the key that follows goes back to browsing. *)
Lemma launch_failure_is_not_fatal_witness :
  snd (posix_keypress Model.worldNoInterpreter (Some (Model.key "return")) Model.onFile)
  = Running Model.awaiting
  /\ shows (posix_keypress Model.worldNoInterpreter (Some (Model.key "return"))
                           Model.onFile)
           (LogError "Error al ejecutar:" "spawnSync npx ENOENT")
  /\ snd (posix_keypress Model.world (Some (Model.key "x")) Model.awaiting)
     = Running Model.onFile.
Proof.
  destruct (launch_failure_is_not_fatal Model.ROOT_DIR false Model.env
              Model.resolve Model.join Model.dirname Model.compare
              Model.worldNoInterpreter (Model.key "return") Model.onFile
              (mkEntry "a.ts" false) eq_refl eq_refl eq_refl eq_refl)
    as (R & S & _ & _ & B).
  split; [|split].
  - exact R.
  - exact (S "spawnSync npx ENOENT" eq_refl).
  - exact (B Model.world (Model.key "x") _ eq_refl).
Defined.

(** C7 as stated fails: a child that exits with status 3 leaves on the
    terminal exactly what a child that exits with status 0 leaves. *)
Lemma status_is_not_reported :
  fst (posix_keypress (Model.worldExit 3) (Some (Model.key "return")) Model.onFile)
  = fst (posix_keypress (Model.worldExit 0) (Some (Model.key "return")) Model.onFile)
  /\ ~ statusReported
        (fun r => fst (posix_keypress (mkWorld Model.tree (fun _ => r) true)
                                      (Some (Model.key "return")) Model.onFile)).
Proof.
  split; [reflexivity|].
  intros H. apply (H 3); [discriminate|reflexivity].
Qed.

(** Reloading a directory that has been removed ends the handler with the
    exception; a root without scripts and [q] exit with code 0. *)
Lemma unreadable_directory_is_fatal_witness :
  posix_keypress Model.worldRemoved (Some (Model.key "r")) Model.atRoot
  = ([], Uncaught (FilesystemError "ENOENT" "/tmp/proj"))
  /\ snd (posix_main Model.worldBare) = Exited 0
  /\ snd (posix_keypress Model.world (Some (Model.key "q")) Model.atRoot) = Exited 0.
Proof.
  destruct (unreadable_directory_is_fatal Model.ROOT_DIR false Model.env
              Model.resolve Model.join Model.dirname Model.compare)
    as (U & _ & _ & B & Q).
  split; [|split].
  - exact (proj1 (U Model.worldRemoved (Model.key "r") Model.atRoot _
                    eq_refl (or_intror eq_refl))).
  - exact (B Model.worldBare _ eq_refl eq_refl).
  - exact (Q Model.world (Model.key "q") Model.atRoot eq_refl eq_refl).
Defined.

(** C8 as stated fails: when the current directory has been removed, the
    reload key and the acknowledgment key end the handler with the exception
    uncaught, and the event loop does not go on. *)
Lemma unreadable_directory_crashes :
  readdirSync Model.worldRemoved (currentDir Model.atRoot)
  = JS.Throw (FilesystemError "ENOENT" "/tmp/proj")
  /\ ~ survives (posix_keypress Model.worldRemoved (Some (Model.key "r")) Model.atRoot)
  /\ ~ survives (posix_keypress Model.worldRemoved (Some (Model.key "x")) Model.awaiting).
Proof.
  split; [reflexivity|].
  split; intros [st H]; discriminate H.
Qed.

(** ** The further properties on the POSIX instance *)

Abbreviation posix_session :=
  (session Model.ROOT_DIR false Model.env Model.resolve Model.join
           Model.dirname Model.compare).

Lemma Model_compare_zero (a b : string) : Model.compare a b = 0 -> a = b.
Proof.
  unfold Model.compare. destruct (String.compare a b) eqn:E; try discriminate.
  intros _. now apply String.compare_eq_iff.
Qed.

Lemma Model_bare_wf : wfWorld false Model.worldBare.
Proof.
  intros dir items. simpl. unfold Model.bare.
  destruct (String.eqb dir "/tmp/proj"); [|discriminate].
  intros H. injection H as <-. repeat constructor.
Qed.

Lemma Model_emptied_reachable : posix_reachable Model.emptied.
Proof.
  apply reach_keypress
    with Model.worldBare (Some (Model.key "r"))
         (fst (posix_keypress Model.worldBare (Some (Model.key "r")) Model.atRoot))
         Model.atRoot.
  - exact Model_bare_wf.
  - exact Model_atRoot_reachable.
  - reflexivity.
Qed.

Lemma Model_adrift_reachable : posix_reachable Model.adrift.
Proof.
  apply reach_keypress
    with Model.worldBare (Some (Model.key "up"))
         (fst (posix_keypress Model.worldBare (Some (Model.key "up")) Model.emptied))
         Model.emptied.
  - exact Model_bare_wf.
  - exact Model_emptied_reachable.
  - reflexivity.
Qed.

(** The root of the instance is listed as [sub] and [a.ts]: two entries,
    [.git] not among them. *)
Lemma listing_complete_witness :
  exists es,
    posix_getEntries Model.world "/tmp/proj" = JS.Ok es
    /\ In (mkEntry "sub" true) es
    /\ In (mkEntry "a.ts" false) es
    /\ List.length es = 2%nat.
Proof.
  destruct (listing_complete Model.ROOT_DIR false Model.resolve Model.compare
              Model.world "/tmp/proj" _ eq_refl) as (es & G & M & L).
  exists es. split; [exact G|]. split; [|split].
  - apply M. right; left. exists (Dirent.mk "sub" Dirent.Directory).
    simpl. auto.
  - apply M. right; right. exists (Dirent.mk "a.ts" Dirent.File).
    simpl. auto.
  - exact L.
Defined.

(** The root of the instance is listed alike whichever way it is read. *)
Lemma listing_ignores_read_order_witness :
  posix_withParent
    [Dirent.mk ".git" Dirent.Directory; Dirent.mk "a.ts" Dirent.File;
     Dirent.mk "sub" Dirent.Directory]
    "/tmp/proj"
  = posix_withParent
      [Dirent.mk "a.ts" Dirent.File; Dirent.mk "sub" Dirent.Directory;
       Dirent.mk ".git" Dirent.Directory]
      "/tmp/proj".
Proof.
  apply (listing_ignores_read_order Model.ROOT_DIR false Model.resolve
           Model.compare Model_compare_sym Model_compare_trans).
  - intros d d' _ _. apply Model_compare_zero.
  - apply Permutation_sym.
    apply (Permutation_cons_app [Dirent.mk ".git" Dirent.Directory]
                                [Dirent.mk "sub" Dirent.Directory]).
    apply (Permutation_cons_app [Dirent.mk ".git" Dirent.Directory] []).
    apply Permutation_refl.
Defined.

(** In the root of the instance [a.ts] is listed for its stem [a]; a file
    called [ts] would not be. *)
Lemma listed_files_by_suffix_witness :
  exists es,
    posix_getEntries Model.world "/tmp/proj" = JS.Ok es
    /\ In (mkEntry "a.ts" false) es
    /\ ~ In (mkEntry "ts" false) es.
Proof.
  destruct (listed_files_by_suffix Model.ROOT_DIR false Model.resolve
              Model.compare Model.world "/tmp/proj" _ "a.ts"
              eq_refl eq_refl eq_refl) as (es & G & A).
  destruct (listed_files_by_suffix Model.ROOT_DIR false Model.resolve
              Model.compare Model.world "/tmp/proj" _ "ts"
              eq_refl eq_refl eq_refl) as (es' & G' & T).
  rewrite G in G'. injection G' as <-.
  exists es. split; [exact G|]. split.
  - apply (proj2 A). split.
    + exists (Dirent.mk "a.ts" Dirent.File). simpl. auto.
    + exists "a". split; [discriminate|now left].
  - intros H. apply (proj1 T) in H.
    destruct H as [_ (stem & _ & [E|E])];
      destruct stem as [|c1 [|c2 [|c3 stem]]]; discriminate E.
Defined.

(** At the start the listing of the instance has two entries, none of them
    the parent entry. *)
Lemma main_outcomes_witness :
  entries Model.atRoot <> [] /\ ~ In parentEntry (entries Model.atRoot).
Proof.
  destruct (main_outcomes Model.ROOT_DIR false Model.resolve Model.compare
              Model.world (fst (posix_main Model.world)) (Running Model.atRoot)
              eq_refl)
    as (_ & N & P & _).
  split; [exact N|exact P].
Defined.

(** With the cursor on [a.ts] the frame marks the second row. *)
Lemma render_marks_selection_witness :
  render "/tmp/proj" (JS.Int 1) Model.rootEntries
  = [ClearScreen; Header "/tmp/proj"; Row false (mkEntry "sub" true);
     Row true (mkEntry "a.ts" false); Separator]
  /\ render "/tmp/proj" JS.NaN Model.rootEntries
     = [ClearScreen; Header "/tmp/proj"; Row false (mkEntry "sub" true);
        Row false (mkEntry "a.ts" false); Separator].
Proof.
  destruct (render_marks_selection "/tmp/proj" (JS.Int 1) Model.rootEntries)
    as [S _].
  destruct (render_marks_selection "/tmp/proj" JS.NaN Model.rootEntries)
    as [_ U].
  split.
  - destruct (S 1 eq_refl ltac:(simpl; lia)) as (before & e & after & _ & _ & _ & _).
    reflexivity.
  - exact (U eq_refl).
Defined.

(** After everything has gone the selection is 0; an arrow key makes it
    [NaN], and then the return key does nothing. *)
Lemma selection_on_empty_listing_witness :
  (validSelection Model.adrift
   \/ (entries Model.adrift = []
       /\ waitingForKey Model.adrift = false
       /\ (selected Model.adrift = JS.Int 0 \/ selected Model.adrift = JS.Int (-1)
           \/ selected Model.adrift = JS.NaN)))
  /\ snd (posix_keypress Model.worldBare (Some (Model.key "up")) Model.emptied)
     = Running Model.adrift
  /\ posix_keypress Model.worldBare (Some (Model.key "return")) Model.adrift
     = ([], Running Model.adrift).
Proof.
  destruct (selection_on_empty_listing Model.ROOT_DIR false Model.env
              Model.resolve Model.join Model.dirname Model.compare
              Model_dirname_join) as (S & A & R).
  split; [|split].
  - exact (S Model.adrift Model_adrift_reachable).
  - exact (A Model.worldBare (Model.key "up") Model.emptied
             eq_refl eq_refl (or_introl eq_refl)).
  - exact (R Model.worldBare (Model.key "return") Model.adrift
             eq_refl eq_refl eq_refl).
Defined.

(** The child of the walk through the instance was started by the return
    key over a file. *)
Lemma child_only_on_return_over_file_witness :
  waitingForKey Model.onFile = false
  /\ exists k cur,
      Some (Model.key "return") = Some k
      /\ Key.named k "return" = true
      /\ JS.index (entries Model.onFile) (selected Model.onFile) = Some cur
      /\ isDir cur = false
      /\ posix_spawnRequest "/tmp/proj" "a.ts"
         = posix_spawnRequest (currentDir Model.onFile) (name cur).
Proof.
  apply (child_only_on_return_over_file Model.ROOT_DIR false Model.env
           Model.resolve Model.join Model.dirname Model.compare
           Model.world (Some (Model.key "return")) Model.onFile
           (posix_spawnRequest "/tmp/proj" "a.ts")).
  vm_compute. tauto.
Defined.

(** The file run from the root of the instance is the listed [a.ts]. *)
Lemma only_listed_scripts_run_witness :
  exists cur,
    In cur (entries Model.onFile)
    /\ isDir cur = false
    /\ (path_extname false (name cur) = ".ts" \/ path_extname false (name cur) = ".js")
    /\ posix_spawnRequest "/tmp/proj" "a.ts"
       = posix_spawnRequest (currentDir Model.onFile) (name cur).
Proof.
  destruct (only_listed_scripts_run Model.ROOT_DIR false Model.env
              Model.resolve Model.join Model.dirname Model.compare
              Model_dirname_join Model.onFile Model_onFile_reachable)
    as [C _].
  apply (C Model.world (Some (Model.key "return"))
           (posix_spawnRequest "/tmp/proj" "a.ts")).
  vm_compute. tauto.
Defined.

(** The down key at the root of the instance draws the frame of the state
    it leads to. *)
Lemma handler_output_matches_outcome_witness :
  (fst (posix_keypress Model.world (Some (Model.key "down")) Model.atRoot) = []
   /\ Model.onFile = Model.atRoot)
  \/ (waitingForKey Model.onFile = false
      /\ fst (posix_keypress Model.world (Some (Model.key "down")) Model.atRoot)
         = render (currentDir Model.onFile) (selected Model.onFile)
                  (entries Model.onFile))
  \/ (waitingForKey Model.onFile = true
      /\ exists cur,
          JS.index (entries Model.atRoot) (selected Model.atRoot) = Some cur
          /\ fst (posix_keypress Model.world (Some (Model.key "down")) Model.atRoot)
             = runFile false Model.env Model.resolve Model.join Model.dirname
                       Model.world (currentDir Model.atRoot) (name cur)).
Proof.
  exact (handler_output_matches_outcome Model.ROOT_DIR false Model.env
           Model.resolve Model.join Model.dirname Model.compare
           Model.world (Some (Model.key "down")) Model.atRoot
           (fst (posix_keypress Model.world (Some (Model.key "down")) Model.atRoot))
           (Running Model.onFile) eq_refl).
Defined.

(** Into [sub] and back to the root of the instance. *)
Lemma enter_then_return_goes_back_witness :
  exists st1,
    snd (posix_keypress Model.world (Some (Model.key "return")) Model.atRoot)
    = Running st1
    /\ currentDir st1 = "/tmp/proj/sub"
    /\ JS.index (entries st1) (selected st1) = Some parentEntry
    /\ snd (posix_keypress Model.world (Some (Model.key "return")) st1)
       = Running Model.atRoot.
Proof.
  exact (enter_then_return_goes_back Model.ROOT_DIR false Model.env
           Model.resolve Model.join Model.dirname Model.compare
           Model_dirname_join
           Model.atRoot Model.world Model.world
           (Model.key "return") (Model.key "return") (mkEntry "sub" true)
           [Dirent.mk "b.js" Dirent.File]
           [Dirent.mk "a.ts" Dirent.File; Dirent.mk "sub" Dirent.Directory;
            Dirent.mk ".git" Dirent.Directory]
           Model_atRoot_reachable eq_refl eq_refl eq_refl eq_refl eq_refl
           ltac:(discriminate) ltac:(discriminate) eq_refl eq_refl).
Defined.

(** A session of the instance: down, run [a.ts], acknowledge, up, open
    [sub]. *)
Lemma session_shows_current_directory_witness :
  posix_descends "/tmp/proj/sub"
  /\ (exists items, Model.subEntries = posix_withParent items "/tmp/proj/sub")
  /\ (waitingForKey Model.inSub = true -> onScript false Model.inSub).
Proof.
  exact (session_shows_current_directory Model.ROOT_DIR false Model.env
           Model.resolve Model.join Model.dirname Model.compare
           Model_dirname_join
           Model.world
           [(Model.world, Some (Model.key "down"));
            (Model.worldExit 3, Some (Model.key "return"));
            (Model.world, Some (Model.key "x"));
            (Model.world, Some (Model.key "up"));
            (Model.world, Some (Model.key "return"))]
           Model.inSub
           Model_tree_wf
           ltac:(repeat constructor; exact Model_tree_wf)
           eq_refl).
Defined.

(** The same session ended by [q] exits with code 0, whatever the status of
    the child was. *)
Example session_quits_with_zero :
  snd (posix_session Model.world
         [(Model.world, Some (Model.key "down"));
          (Model.worldExit 3, Some (Model.key "return"));
          (Model.world, Some (Model.key "x"));
          (Model.world, Some (Model.key "q"));
          (Model.world, Some (Model.key "down"))])
  = Exited 0.
Proof. reflexivity. Qed.
